(** * varsig: the envelope codec of [src/index.js]

    A varsig is the byte sequence
    [prefix ++ signatureHeader ++ hashAlgorithm ++ signatureLength ++
     encodingInfo ++ signatureBytes], the four middle fields being varints.
    This development embeds [create], [inspectVarsig], [verify] and the two
    varint wrappers of [src/index.js], the constants of [constants.js], the
    capability record of [api.ts] and the three built-in implementations, and
    proves the properties the specification states about them.

    Conventions of the embedding:
    - a [Uint8Array] is a [list byte];
    - a JavaScript number that holds a tag, a length or an offset is a
      natural number ([N] for the values carried by varints, [nat] for
      positions in an array), which is what a double holds exactly below
      2^53;
    - a call that may throw, and an awaited promise that may reject, return
      a [result]. *)

From Stdlib Require Import List NArith Arith Lia Bool String Ascii.
From Stdlib.Strings Require Import Byte.
From Stdlib Require HexString.
From Equations Require Import Equations.
Import ListNotations.

#[local] Open Scope N_scope.

(* ------------------------------------------------------------------ *)
(** ** Errors and fallible computations *)

(** What the code can throw.  [MalformedVarint] is the [RangeError] of the
    varint decoder, [UnknownSignatureHeaderCode] the [Error] thrown by
    [inspectVarsig] (index.js:121-123), [OutOfBounds] the [RangeError] of
    [TypedArray.prototype.set], [NotACapability] the [TypeError] of calling a
    method of [undefined], and [Thrown] whatever a signing or verifying
    primitive raises. *)
Inductive error : Type :=
| MalformedVarint
| UnknownSignatureHeaderCode (code : N)
| OutOfBounds
| NotACapability
| Thrown (message : string).

Inductive result (A : Type) : Type :=
| Ok (a : A)
| Err (e : error).
Arguments Ok {A} a.
Arguments Err {A} e.

Definition bind {A B} (c : result A) (k : A -> result B) : result B :=
  match c with
  | Ok a => k a
  | Err e => Err e
  end.

Notation "x <- c ;; k" := (bind c (fun x => k))
  (at level 61, c at next level, right associativity).

(* ------------------------------------------------------------------ *)
(** ** Byte arrays *)

Definition Uint8Array := list byte.

(** A store into a [Uint8Array] keeps the low eight bits of the number. *)
Definition byte_of_N (n : N) : byte :=
  match Byte.of_N (n mod 256) with
  | Some b => b
  | None => x00
  end.

(** [new Uint8Array(len)]: [len] zero bytes. *)
Definition new_Uint8Array (len : nat) : Uint8Array := repeat x00 len.

(** [buffer.subarray(begin)] and [buffer.slice(begin, end)] for positions
    that are natural numbers: both clamp to the array, and an [end] below
    [begin] gives the empty array. *)
Definition subarray (buffer : Uint8Array) (begin : nat) : Uint8Array :=
  skipn begin buffer.

Definition slice (buffer : Uint8Array) (begin end_ : nat) : Uint8Array :=
  firstn (end_ - begin) (skipn begin buffer).

(** [target[i] = b] on a typed array: a store past the end is ignored. *)
Fixpoint store (target : Uint8Array) (i : nat) (b : byte) : Uint8Array :=
  match target, i with
  | [], _ => []
  | _ :: rest, O => b :: rest
  | x :: rest, S j => x :: store rest j b
  end.

Fixpoint store_all (target : Uint8Array) (i : nat) (bs : list byte) : Uint8Array :=
  match bs with
  | [] => target
  | b :: rest => store_all (store target i b) (S i) rest
  end.

(** [target.set(source, offset)]: copies [source] over [target] from
    [offset] on, and throws when [source] does not fit. *)
Definition set (target source : Uint8Array) (offset : nat) : result Uint8Array :=
  if (offset + List.length source <=? List.length target)%nat
  then Ok (firstn offset target ++ source
             ++ skipn (offset + List.length source) target)
  else Err OutOfBounds.

(** Lower-case base-16 digits: [Number.prototype.toString(16)] on a natural
    number, and [toString(bytes, 'hex')] of uint8arrays, two digits a byte. *)
Definition toString16 (n : N) : string :=
  match n with
  | N0 => "0"%string
  | Npos p => HexString.Raw.of_pos p ""
  end.

Definition hex_digit (n : N) : ascii :=
  match toString16 n with
  | String c _ => c
  | EmptyString => "0"%char
  end.

Definition hex_of_byte (b : byte) : string :=
  String (hex_digit (Byte.to_N b / 16))
    (String (hex_digit (Byte.to_N b mod 16)) EmptyString).

Definition toString_hex (bytes : Uint8Array) : string :=
  List.fold_right (fun b s => hex_of_byte b ++ s)%string EmptyString bytes.

(* ------------------------------------------------------------------ *)
(** ** The varint codec *)

(** A value together with the equation that says what it is, to keep the
    outcome of a test at hand in a definition by cases. *)
Definition remember_eq {A} (a : A) : {b : A | a = b} := exist _ a eq_refl.

Module varint.

(** The continuation bit of a varint byte, and its seven value bits. *)
Definition MSB : N := 0x80.
Definition REST : N := 0x7F.

(** Modelled from the spec: the [varint] codec that index.js imports from
    the multiformats package, whose code is not among the sources.  Section
    4.1: "standard 7-bits-per-byte little-endian group encoding with a
    continuation bit (high bit set on all but the last byte of a multi-byte
    value)".  Values are natural numbers; the doubles of the package agree
    with them below 2^53. *)
Equations? encode (num : N) : list byte by wf (N.to_nat (N.log2 num)) lt :=
  encode num with remember_eq (num <? MSB) := {
    | exist _ true _ => [byte_of_N num]
    | exist _ false H =>
        byte_of_N (N.lor (N.land num REST) MSB) :: encode (N.shiftr num 7)
  }.
Proof.
  apply N.ltb_ge in H. unfold MSB in H.
  change (N.to_nat (N.log2 (N.shiftr num 7)) < N.to_nat (N.log2 num))%nat.
  rewrite N.log2_shiftr.
  assert (N.log2 128 <= N.log2 num) by (apply N.log2_le_mono; exact H).
  change (N.log2 128) with 7 in *. lia.
Qed.

(** Modelled from the spec: [varint.encodingLength], the number of bytes
    the encoding of [num] takes (the "varint-byte-length" of section 3). *)
Definition encodingLength (num : N) : nat := List.length (encode num).

(** Modelled from the spec: [varint.encodeTo(num, target, offset)], which
    stores the encoding of [num] in [target] from [offset] on. *)
Definition encodeTo (num : N) (target : Uint8Array) (offset : nat) : Uint8Array :=
  store_all target offset (encode num).

(** Modelled from the spec: the reading loop of [varint.decode], which adds
    up the seven-bit groups, least significant first, until a byte without
    the continuation bit.  Section 4.1: "Decoding fails with a
    MalformedVarint condition if the buffer ends before a terminating byte
    (no continuation bit) is found"; any encoding is accepted, minimal or
    not. *)
Fixpoint read (buf : list byte) (shift res : N) (counter : nat)
  : result (N * nat) :=
  match buf with
  | [] => Err MalformedVarint
  | b :: rest =>
      let res' := res + N.shiftl (N.land (Byte.to_N b) REST) shift in
      if MSB <=? Byte.to_N b
      then read rest (shift + 7) res' (S counter)
      else Ok (res', S counter)
  end.

(** Modelled from the spec: [varint.decode(buf)], the value read from the
    start of [buf] and the number of bytes it took. *)
Definition decode (buf : Uint8Array) : result (N * nat) := read buf 0 0 0%nat.

End varint.

(* ------------------------------------------------------------------ *)
(** ** api.ts: the capability record *)

(** A key is a [Uint8Array] or a platform [CryptoKey]; the codec never looks
    inside it. *)
Inductive Key : Type :=
| RawKey (bytes : Uint8Array)
| CryptoKey (handle : N).

Module API.

(** [interface CryptoImplementation].  [generateKey] draws fresh random keys
    and takes no part in the codec; it is not embedded. *)
Record CryptoImplementation : Type := {
  sign : Uint8Array -> Key -> result Uint8Array;
  verify : Uint8Array -> Uint8Array -> Key -> result bool;
  getHashAlgorithm : N;
  getSignatureHeader : N
}.

End API.

(* ------------------------------------------------------------------ *)
(** ** constants.js *)

Definition VARSIG_PREFIX : Uint8Array := [x34].
Definition HASH_ALGO_SHA256 : N := 0x12.
Definition ENCODING_INFO : N := 0x5f.

(** An object literal read through [Object.entries]: its entries in the order
    they are written. *)
Definition SIGNATURE_HEADER_TAGS : list (string * N) :=
  [ ("ed25519"%string, 0xed);
    ("rsa"%string, 0x1205);
    ("bls"%string, 0x1309) ].

(** [SIGNATURE_HEADER_TAGS.name] for a name of the table. *)
Definition tag (name : string) : N :=
  match find (fun entry => String.eqb (fst entry) name) SIGNATURE_HEADER_TAGS with
  | Some entry => snd entry
  | None => 0
  end.

(* ------------------------------------------------------------------ *)
(** ** crypto/ed25519.js, crypto/rsa.js, crypto/bls.js, crypto/implementations.js *)

(** The primitives the three implementations call: [ED25519.sign] and
    [ED25519.verify] of @noble/ed25519, [crypto.subtle.sign] and
    [crypto.subtle.verify] with RSASSA-PKCS1-v1_5, and [bls.sign],
    [bls.Signature.fromHex] and [bls.verify] of @noble/curves.  Their
    arguments come in the order of the calls in the source. *)
Record Primitives : Type := {
  ED25519_sign : Uint8Array -> Key -> result Uint8Array;
  ED25519_verify : Uint8Array -> Uint8Array -> Key -> result bool;
  subtle_sign : Key -> Uint8Array -> result Uint8Array;
  subtle_verify : Key -> Uint8Array -> Uint8Array -> result bool;
  bls_Signature : Type;
  bls_sign : Uint8Array -> Key -> result Uint8Array;
  bls_Signature_fromHex : Uint8Array -> result bls_Signature;
  bls_verify : bls_Signature -> Uint8Array -> Key -> result bool
}.

Section Implementations.

Variable P : Primitives.

Definition ed25519Implementation : API.CryptoImplementation := {|
  API.sign payload privateKey := ED25519_sign P payload privateKey;
  API.verify payload signature publicKey :=
    ED25519_verify P signature payload publicKey;
  API.getSignatureHeader := tag "ed25519";
  API.getHashAlgorithm := HASH_ALGO_SHA256
|}.

Definition rsaImplementation : API.CryptoImplementation := {|
  API.sign payload privateKey := subtle_sign P privateKey payload;
  API.verify payload signature publicKey :=
    subtle_verify P publicKey signature payload;
  API.getSignatureHeader := tag "rsa";
  API.getHashAlgorithm := HASH_ALGO_SHA256
|}.

Definition blsImplementation : API.CryptoImplementation := {|
  API.sign payload privateKey := bls_sign P payload privateKey;
  API.verify payload signature publicKey :=
    sig <- bls_Signature_fromHex P signature ;;
    bls_verify P sig payload publicKey;
  API.getSignatureHeader := tag "bls";
  API.getHashAlgorithm := HASH_ALGO_SHA256
|}.

Definition cryptoAlgorithms : list (string * API.CryptoImplementation) :=
  [ ("ed25519"%string, ed25519Implementation);
    ("rsa"%string, rsaImplementation);
    ("bls"%string, blsImplementation) ].

End Implementations.

(** [object[key]]: the value of the entry named [key], if there is one. *)
Definition property {A} (object : list (string * A)) (key : string) : option A :=
  option_map snd (find (fun entry => String.eqb (fst entry) key) object).

(* ------------------------------------------------------------------ *)
(** ** index.js *)

Module Decoded.
(** What [decodeVarintAt] returns. *)
Record t : Type := { value : N; length : nat; nextOffset : nat }.
End Decoded.

(** index.js:175-180 *)
Definition encodeVarint (code : N) : Uint8Array :=
  let len := varint.encodingLength code in
  let bytes := new_Uint8Array len in
  varint.encodeTo code bytes 0.

(** index.js:186-189 *)
Definition decodeVarintAt (buffer : Uint8Array) (offset : nat) : result Decoded.t :=
  decoded <- varint.decode (subarray buffer offset) ;;
  let value := fst decoded in
  let length := snd decoded in
  Ok {| Decoded.value := value;
        Decoded.length := length;
        Decoded.nextOffset := offset + length |}.

(** index.js:21-64.  The array [varsig] is allocated once and written in
    place; each [set] below stands for the array after that write. *)
Definition create (payload : Uint8Array)
    (cryptoImplementation : API.CryptoImplementation) (privateKey : Key)
  : result Uint8Array :=
  let prefix := VARSIG_PREFIX in
  let signatureHeaderBytes :=
    encodeVarint (API.getSignatureHeader cryptoImplementation) in
  let hashAlgorithmBytes :=
    encodeVarint (API.getHashAlgorithm cryptoImplementation) in
  signature <- API.sign cryptoImplementation payload privateKey ;;
  let signatureLengthBytes := encodeVarint (N.of_nat (List.length signature)) in
  let encodingInfoBytes := encodeVarint ENCODING_INFO in
  let totalLength :=
    (List.length prefix +
     List.length signatureHeaderBytes +
     List.length hashAlgorithmBytes +
     List.length signatureLengthBytes +
     List.length encodingInfoBytes +
     List.length signature)%nat in
  let varsig := new_Uint8Array totalLength in
  let offset := 0%nat in
  varsig <- set varsig prefix offset ;;
  let offset := (offset + List.length prefix)%nat in
  varsig <- set varsig signatureHeaderBytes offset ;;
  let offset := (offset + List.length signatureHeaderBytes)%nat in
  varsig <- set varsig hashAlgorithmBytes offset ;;
  let offset := (offset + List.length hashAlgorithmBytes)%nat in
  varsig <- set varsig signatureLengthBytes offset ;;
  let offset := (offset + List.length signatureLengthBytes)%nat in
  varsig <- set varsig encodingInfoBytes offset ;;
  let offset := (offset + List.length encodingInfoBytes)%nat in
  varsig <- set varsig signature offset ;;
  Ok varsig.

(** The object [inspectVarsig] returns. *)
Record InspectResult : Type := {
  prefix : string;
  signatureHeader : string;
  hashAlgorithm : string;
  signatureByteLength : string;
  encodingInfo : string;
  signature : Uint8Array;
  algorithm : string;
  totalLength : nat
}.

(** [Object.entries(SIGNATURE_HEADER_TAGS).find(([algo, code]) =>
    code === signatureHeaderCode)?.[0]] *)
Definition signatureHeaderMatch (signatureHeaderCode : N) : option string :=
  option_map fst
    (find (fun entry => snd entry =? signatureHeaderCode) SIGNATURE_HEADER_TAGS).

(** [!x] for [x] a string or [undefined]. *)
Definition falsy (x : option string) : bool :=
  match x with
  | None => true
  | Some s => String.eqb s ""
  end.

(** index.js:105-158 *)
Definition inspectVarsig (varsig : Uint8Array) : result InspectResult :=
  let prefixLength := List.length VARSIG_PREFIX in
  let prefix := slice varsig 0 prefixLength in
  header <- decodeVarintAt varsig prefixLength ;;
  let signatureHeaderCode := Decoded.value header in
  let offsetAfterSignatureHeader := Decoded.nextOffset header in
  let signatureHeaderMatched := signatureHeaderMatch signatureHeaderCode in
  if falsy signatureHeaderMatched
  then Err (UnknownSignatureHeaderCode signatureHeaderCode)
  else
    hash <- decodeVarintAt varsig offsetAfterSignatureHeader ;;
    let hashAlgorithmCode := Decoded.value hash in
    let offsetAfterHashAlgorithm := Decoded.nextOffset hash in
    len <- decodeVarintAt varsig offsetAfterHashAlgorithm ;;
    let signatureLengthValue := Decoded.value len in
    let signatureLengthBytesLength := Decoded.length len in
    let encodingInfoOffset := Decoded.nextOffset len in
    let signatureLengthBytes :=
      slice varsig offsetAfterHashAlgorithm
        (offsetAfterHashAlgorithm + signatureLengthBytesLength) in
    info <- decodeVarintAt varsig encodingInfoOffset ;;
    let encodingInfoCode := Decoded.value info in
    let signatureStart := Decoded.nextOffset info in
    let signatureEnd := (signatureStart + N.to_nat signatureLengthValue)%nat in
    let signature := slice varsig signatureStart signatureEnd in
    Ok {| prefix := toString_hex prefix;
          signatureHeader := toString16 signatureHeaderCode;
          hashAlgorithm := toString16 hashAlgorithmCode;
          signatureByteLength := toString_hex signatureLengthBytes;
          encodingInfo := toString16 encodingInfoCode;
          signature := signature;
          algorithm := match signatureHeaderMatched with
                       | Some name => name
                       | None => ""%string
                       end;
          totalLength := List.length varsig |}.

(** index.js:74-80 *)
Definition verify (P : Primitives) (payload varsig : Uint8Array) (publicKey : Key)
  : result bool :=
  inspected <- inspectVarsig varsig ;;
  let signature := signature inspected in
  let algorithm := algorithm inspected in
  match property (cryptoAlgorithms P) algorithm with
  | Some cryptoImplementation =>
      API.verify cryptoImplementation payload signature publicKey
  | None => Err NotACapability
  end.

(** The envelope [create] assembles, as a concatenation. *)
Definition envelope (signatureHeader hashAlgorithm : N) (signature : Uint8Array)
  : Uint8Array :=
  VARSIG_PREFIX
    ++ varint.encode signatureHeader
    ++ varint.encode hashAlgorithm
    ++ varint.encode (N.of_nat (List.length signature))
    ++ varint.encode ENCODING_INFO
    ++ signature.

(** [result] with another [prefix] field. *)
Definition with_prefix (p : string) (r : InspectResult) : InspectResult :=
  {| prefix := p;
     signatureHeader := signatureHeader r;
     hashAlgorithm := hashAlgorithm r;
     signatureByteLength := signatureByteLength r;
     encodingInfo := encodingInfo r;
     signature := signature r;
     algorithm := algorithm r;
     totalLength := totalLength r |}.

(** Stand-ins for the primitives, to run the code on concrete inputs: every
    signature is a run of zero bytes of the scheme's length (64, 256 and 96),
    and every verification answers [false]. *)
Definition rejecting : Primitives := {|
  ED25519_sign _ _ := Ok (repeat x00 64);
  ED25519_verify _ _ _ := Ok false;
  subtle_sign _ _ := Ok (repeat x00 256);
  subtle_verify _ _ _ := Ok false;
  bls_Signature := Uint8Array;
  bls_sign _ _ := Ok (repeat x00 96);
  bls_Signature_fromHex hex := Ok hex;
  bls_verify _ _ _ := Ok false
|}.


(** A byte with the continuation bit. *)
Definition continues (b : byte) : Prop := 0x80 <= Byte.to_N b.

(* ------------------------------------------------------------------ *)
(** ** utils.js *)

(** [buffer.slice(begin)]: the bytes from [begin] to the end. *)
Definition slice_from (buffer : Uint8Array) (begin : nat) : Uint8Array :=
  skipn begin buffer.

Module utils.

(** What [parseVarsig] returns.  A byte read at an index past the end of the
    array is [undefined]. *)
Record Parsed : Type := {
  varsigHeader : option byte;
  hashAlgorithm : option byte;
  encodingInfo : option byte;
  sigBytes : Uint8Array
}.

(** utils.js:12-19 *)
Definition parseVarsig (varsig : Uint8Array) : Parsed :=
  let varsigHeader := nth_error varsig 0 in
  let hashAlgorithm := nth_error varsig 1 in
  let encodingInfo := nth_error varsig 2 in
  let sigBytes := slice_from varsig 3 in
  {| varsigHeader := varsigHeader;
     hashAlgorithm := hashAlgorithm;
     encodingInfo := encodingInfo;
     sigBytes := sigBytes |}.

End utils.


(** An encoding made one byte longer: its last byte gets the continuation
    bit and a zero byte follows, which adds an empty group of seven bits. *)
Fixpoint padded (encoding : list byte) : list byte :=
  match encoding with
  | [] => []
  | b :: rest =>
      match rest with
      | [] => [byte_of_N (N.lor (Byte.to_N b) varint.MSB); x00]
      | _ :: _ => b :: padded rest
      end
  end.

(** Stand-ins like [rejecting], except that the parser of BLS signatures
    throws, as [bls.Signature.fromHex] does, on bytes that are not 96 or 192
    in number. *)
Definition length_checking : Primitives := {|
  ED25519_sign _ _ := Ok (repeat x00 64);
  ED25519_verify _ _ _ := Ok false;
  subtle_sign _ _ := Ok (repeat x00 256);
  subtle_verify _ _ _ := Ok false;
  bls_Signature := Uint8Array;
  bls_sign _ _ := Ok (repeat x00 96);
  bls_Signature_fromHex hex :=
    if ((List.length hex =? 96) || (List.length hex =? 192))%nat
    then Ok hex
    else Err (Thrown "invalid compressed signature length, must be 96 or 192");
  bls_verify _ _ _ := Ok false
|}.

(** A number that a double holds exactly: [Number.isSafeInteger] on a
    natural number. *)
Definition safe_integer (n : N) : Prop := n < 2 ^ 53.

(* ------------------------------------------------------------------ *)
(** * Properties *)

(** A comparison of positions that holds by arithmetic. *)
Ltac leb_holds :=
  match goal with
  | |- context [(?a <=? ?b)%nat] =>
      replace (a <=? b)%nat with true by (symmetry; apply Nat.leb_le; lia)
  end.

(** The side conditions of reading a field of a buffer given as a
    concatenation: the layout of the buffer, and the position of the field. *)
Ltac by_layout buffer :=
  first [ reflexivity
        | unfold buffer; now rewrite <- !app_assoc
        | now rewrite !length_app ].

(** One step of a chain of fallible calls. *)
Ltac step := cbn [bind Decoded.value Decoded.nextOffset Decoded.length].

(** ** Bytes *)

Lemma to_N_byte_of_N (n : N) : Byte.to_N (byte_of_N n) = n mod 256.
Proof.
  unfold byte_of_N.
  destruct (Byte.of_N (n mod 256)) as [b|] eqn:E.
  - now apply Byte.to_of_N.
  - apply Byte.of_N_None_iff in E.
    pose proof (N.mod_upper_bound n 256). lia.
Qed.

Lemma to_N_byte_of_N_small (n : N) : n < 256 -> Byte.to_N (byte_of_N n) = n.
Proof. intros H. rewrite to_N_byte_of_N. now apply N.mod_small. Qed.

Lemma land_REST (n : N) : N.land n varint.REST = n mod 128.
Proof. change varint.REST with (N.ones 7). now rewrite N.land_ones. Qed.

Lemma lor_MSB (a : N) : a < 128 -> N.lor a varint.MSB = a + 128.
Proof.
  intros H. unfold varint.MSB.
  destruct a as [|p]; [reflexivity|].
  do 7 (destruct p as [p|p|]; try reflexivity); lia.
Qed.

(** The two shapes of a varint byte: a group with the continuation bit, and
    a last group without. *)
Lemma continuation_byte (n : N) :
  let b := byte_of_N (N.lor (N.land n varint.REST) varint.MSB) in
  Byte.to_N b = n mod 128 + 128.
Proof.
  cbv zeta. rewrite land_REST.
  pose proof (N.mod_upper_bound n 128).
  rewrite lor_MSB by lia.
  apply to_N_byte_of_N_small. lia.
Qed.

Lemma store_all_fresh (pre bs junk : list byte) :
  List.length junk = List.length bs ->
  store_all (pre ++ junk) (List.length pre) bs = pre ++ bs.
Proof.
  revert pre junk.
  induction bs as [|b bs IH]; intros pre junk H; simpl in *.
  - destruct junk; [reflexivity | discriminate].
  - destruct junk as [|j junk]; [discriminate|].
    assert (S : store (pre ++ j :: junk) (List.length pre) b
                = (pre ++ [b]) ++ junk).
    { clear. induction pre as [|x pre IHp]; simpl; [reflexivity|].
      now rewrite IHp. }
    rewrite S.
    replace (Datatypes.S (List.length pre)) with (List.length (pre ++ [b]))
      by (rewrite length_app; simpl; lia).
    rewrite IH by (simpl in H; lia).
    now rewrite <- app_assoc.
Qed.

(** ** The varint codec *)

Lemma encode_unfold (num : N) :
  varint.encode num =
    if num <? varint.MSB then [byte_of_N num]
    else byte_of_N (N.lor (N.land num varint.REST) varint.MSB)
           :: varint.encode (N.shiftr num 7).
Proof.
  rewrite varint.encode_equation_1.
  unfold varint.encode_unfold_clause_1, remember_eq.
  now destruct (num <? varint.MSB).
Qed.

(** [encodeVarint] allocates exactly the bytes the encoder fills, so it
    returns the encoding itself. *)
Lemma encodeVarint_encode (code : N) : encodeVarint code = varint.encode code.
Proof.
  unfold encodeVarint, varint.encodeTo, varint.encodingLength, new_Uint8Array.
  apply (store_all_fresh []). apply repeat_length.
Qed.

Lemma encodeVarint_length (code : N) :
  List.length (encodeVarint code) = varint.encodingLength code.
Proof. now rewrite encodeVarint_encode. Qed.

(** Reading back an encoding, from any state of the reader and whatever
    follows the encoding. *)
Lemma read_encode (num : N) :
  forall (rest : list byte) (shift res : N) (counter : nat),
    varint.read (varint.encode num ++ rest) shift res counter
    = Ok (res + N.shiftl num shift,
          (counter + List.length (varint.encode num))%nat).
Proof.
  induction num as [num IH] using (well_founded_induction N.lt_wf_0).
  intros rest shift res counter.
  rewrite encode_unfold.
  destruct (num <? varint.MSB) eqn:E.
  - apply N.ltb_lt in E. unfold varint.MSB in E.
    simpl. rewrite to_N_byte_of_N_small by lia.
    replace (varint.MSB <=? num) with false
      by (symmetry; apply N.leb_gt; exact E).
    rewrite land_REST, N.mod_small by exact E.
    do 2 f_equal. lia.
  - apply N.ltb_ge in E. unfold varint.MSB in E.
    cbn [app varint.read List.length].
    rewrite continuation_byte, land_REST.
    assert (Hq : N.shiftr num 7 < num)
      by (rewrite N.shiftr_div_pow2; apply N.div_lt; lia).
    assert (Hn : num = 128 * N.shiftr num 7 + num mod 128)
      by (rewrite N.shiftr_div_pow2; apply N.div_mod; lia).
    assert (Hr : num mod 128 < 128) by (apply N.mod_upper_bound; lia).
    revert Hn Hr. generalize (num mod 128) as r. intros r Hn Hr.
    replace (varint.MSB <=? r + 128) with true
      by (symmetry; apply N.leb_le; unfold varint.MSB; lia).
    replace ((r + 128) mod 128) with r.
    2:{ replace (r + 128) with (r + 1 * 128) by lia.
        rewrite N.Div0.mod_add. symmetry. now apply N.mod_small. }
    rewrite (IH _ Hq).
    f_equal. f_equal; [|lia].
    rewrite !N.shiftl_mul_pow2, N.pow_add_r.
    change (2 ^ 7) with 128.
    rewrite Hn at 2. lia.
Qed.

Lemma decode_encode (num : N) (rest : list byte) :
  varint.decode (varint.encode num ++ rest)
  = Ok (num, varint.encodingLength num).
Proof.
  unfold varint.decode. rewrite read_encode.
  now rewrite N.shiftl_0_r.
Qed.

Lemma decodeVarintAt_encoded (pre rest : list byte) (code : N) :
  decodeVarintAt (pre ++ encodeVarint code ++ rest) (List.length pre)
  = Ok {| Decoded.value := code;
          Decoded.length := varint.encodingLength code;
          Decoded.nextOffset := List.length pre + varint.encodingLength code |}.
Proof.
  unfold decodeVarintAt, subarray.
  rewrite skipn_app, skipn_all, Nat.sub_diag. simpl.
  now rewrite encodeVarint_encode, decode_encode.
Qed.

(** ** Writing into a fresh array *)

(** A [set] at the end of what has been written so far, in an array whose
    remaining bytes are still zero. *)
Lemma set_fresh (written source : list byte) (total offset : nat) :
  offset = List.length written ->
  (List.length written + List.length source <= total)%nat ->
  set (written ++ repeat x00 (total - List.length written)) source offset
  = Ok ((written ++ source)
          ++ repeat x00 (total - List.length (written ++ source))).
Proof.
  intros -> Hfit. unfold set.
  rewrite length_app, repeat_length.
  leb_holds. f_equal.
  rewrite firstn_app, firstn_all, Nat.sub_diag, firstn_O, app_nil_r.
  rewrite skipn_app, skipn_all2 by lia.
  replace (List.length written + List.length source - List.length written)%nat
    with (List.length source) by lia.
  replace (total - List.length written)%nat
    with (List.length source
          + (total - List.length (written ++ source)))%nat
    by (rewrite length_app; lia).
  rewrite repeat_app, skipn_app, repeat_length, Nat.sub_diag.
  rewrite skipn_all2 by (rewrite repeat_length; lia).
  simpl. now rewrite <- app_assoc.
Qed.

Lemma create_envelope (payload : Uint8Array)
    (cryptoImplementation : API.CryptoImplementation) (privateKey : Key) :
  create payload cryptoImplementation privateKey
  = signature <- API.sign cryptoImplementation payload privateKey ;;
    Ok (envelope (API.getSignatureHeader cryptoImplementation)
          (API.getHashAlgorithm cryptoImplementation) signature).
Proof.
  unfold create.
  destruct (API.sign cryptoImplementation payload privateKey) as [sig|e];
    [|reflexivity].
  cbn [bind]. rewrite !encodeVarint_encode.
  set (h := varint.encode (API.getSignatureHeader cryptoImplementation)).
  set (a := varint.encode (API.getHashAlgorithm cryptoImplementation)).
  set (l := varint.encode (N.of_nat (List.length sig))).
  set (i := varint.encode ENCODING_INFO).
  set (total := (_ + List.length sig)%nat).
  unfold new_Uint8Array.
  change (repeat x00 total)
    with ([] ++ repeat x00 (total - List.length (@nil byte))).
  assert (Ht : total = List.length
                 (((((([] ++ VARSIG_PREFIX) ++ h) ++ a) ++ l) ++ i) ++ sig))
    by (rewrite !length_app; reflexivity).
  repeat (rewrite set_fresh;
          [ cbn [bind]
          | rewrite ?length_app; simpl; lia
          | rewrite Ht, !length_app; simpl; lia ]).
  rewrite Ht, Nat.sub_diag. simpl repeat. rewrite app_nil_r.
  unfold envelope. fold h a l i. simpl app at 1.
  now rewrite <- !app_assoc.
Qed.

(** ** Decoding the fields of a buffer laid out as an envelope *)

Lemma decodeVarintAt_at (buffer pre rest : list byte) (code : N) (offset : nat) :
  buffer = pre ++ varint.encode code ++ rest ->
  offset = List.length pre ->
  decodeVarintAt buffer offset
  = Ok {| Decoded.value := code;
          Decoded.length := varint.encodingLength code;
          Decoded.nextOffset := offset + varint.encodingLength code |}.
Proof.
  intros -> ->. rewrite <- encodeVarint_encode.
  apply decodeVarintAt_encoded.
Qed.

Lemma slice_at (buffer pre rest : list byte) (offset len : nat) :
  buffer = pre ++ rest ->
  offset = List.length pre ->
  slice buffer offset (offset + len) = firstn len rest.
Proof.
  intros -> ->. unfold slice.
  rewrite skipn_app, skipn_all, Nat.sub_diag. simpl.
  f_equal. lia.
Qed.

(** A buffer made of one prefix byte, four encoded numbers and a tail:
    [inspectVarsig] reads the four numbers back and takes as signature the
    first [signatureLength] bytes of the tail, or the whole tail when it is
    shorter than that. *)
Lemma inspectVarsig_fields (p : byte)
    (signatureHeader hashAlgorithm signatureLength encodingInfo : N)
    (tail : list byte) :
  let varsig :=
    [p] ++ varint.encode signatureHeader ++ varint.encode hashAlgorithm
        ++ varint.encode signatureLength ++ varint.encode encodingInfo
        ++ tail in
  inspectVarsig varsig
  = if falsy (signatureHeaderMatch signatureHeader)
    then Err (UnknownSignatureHeaderCode signatureHeader)
    else Ok {| prefix := toString_hex [p];
               signatureHeader := toString16 signatureHeader;
               hashAlgorithm := toString16 hashAlgorithm;
               signatureByteLength :=
                 toString_hex (varint.encode signatureLength);
               encodingInfo := toString16 encodingInfo;
               signature := firstn (N.to_nat signatureLength) tail;
               algorithm :=
                 match signatureHeaderMatch signatureHeader with
                 | Some name => name
                 | None => ""%string
                 end;
               totalLength := List.length varsig |}.
Proof.
  intros varsig. unfold inspectVarsig.
  set (h := varint.encode signatureHeader) in *.
  set (a := varint.encode hashAlgorithm) in *.
  set (l := varint.encode signatureLength) in *.
  set (i := varint.encode encodingInfo) in *.
  rewrite (@decodeVarintAt_at varsig [p] (a ++ l ++ i ++ tail) signatureHeader)
    by by_layout varsig.
  step. destruct (falsy (signatureHeaderMatch signatureHeader)); [reflexivity|].
  rewrite (@decodeVarintAt_at varsig ([p] ++ h) (l ++ i ++ tail) hashAlgorithm)
    by by_layout varsig.
  step.
  rewrite (@decodeVarintAt_at varsig (([p] ++ h) ++ a) (i ++ tail) signatureLength)
    by by_layout varsig.
  step.
  rewrite (@decodeVarintAt_at varsig ((([p] ++ h) ++ a) ++ l) tail encodingInfo)
    by by_layout varsig.
  step.
  rewrite (@slice_at varsig (([p] ++ h) ++ a) (l ++ i ++ tail))
    by by_layout varsig.
  rewrite (@slice_at varsig (((([p] ++ h) ++ a) ++ l) ++ i) tail)
    by by_layout varsig.
  unfold varint.encodingLength. fold l.
  rewrite firstn_app, firstn_all, Nat.sub_diag, firstn_O, app_nil_r.
  reflexivity.
Qed.

(** ** The encoder *)

(** C1.  Whenever the signing capability returns [signatureBytes], [create]
    returns the prefix byte 0x34, then the varints of the signature header,
    of the hash algorithm, of the number of signature bytes and of 0x5f, then
    the signature bytes; and the length of that array is the length of the
    prefix plus the byte lengths of the four varints plus the number of
    signature bytes. *)
Theorem create_concatenation (payload : Uint8Array)
    (cryptoImplementation : API.CryptoImplementation) (privateKey : Key)
    (signatureBytes : Uint8Array) :
  API.sign cryptoImplementation payload privateKey = Ok signatureBytes ->
  let varsig :=
    [x34]
      ++ encodeVarint (API.getSignatureHeader cryptoImplementation)
      ++ encodeVarint (API.getHashAlgorithm cryptoImplementation)
      ++ encodeVarint (N.of_nat (List.length signatureBytes))
      ++ encodeVarint 0x5f
      ++ signatureBytes in
  create payload cryptoImplementation privateKey = Ok varsig
  /\ List.length varsig
     = (List.length VARSIG_PREFIX
        + varint.encodingLength (API.getSignatureHeader cryptoImplementation)
        + varint.encodingLength (API.getHashAlgorithm cryptoImplementation)
        + varint.encodingLength (N.of_nat (List.length signatureBytes))
        + varint.encodingLength 0x5f
        + List.length signatureBytes)%nat.
Proof.
  intros Hsign varsig. split.
  - rewrite create_envelope, Hsign. cbn [bind].
    unfold varsig, envelope. now rewrite !encodeVarint_encode.
  - unfold varsig. rewrite !length_app, !encodeVarint_length.
    simpl List.length. lia.
Qed.

Lemma create_concatenation_witness :
  API.sign (ed25519Implementation rejecting) [x68; x69] (RawKey [])
  = Ok (repeat x00 64)
  /\ create [x68; x69] (ed25519Implementation rejecting) (RawKey [])
     = Ok ([x34] ++ [xed; x01] ++ [x12] ++ [x40] ++ [x5f] ++ repeat x00 64).
Proof.
  split; [reflexivity|].
  exact (proj1 (@create_concatenation [x68; x69]
                  (ed25519Implementation rejecting) (RawKey [])
                  (repeat x00 64) eq_refl)).
Defined.

(** ** Inspecting what [create] made *)

Lemma inspectVarsig_envelope (header hash : N) (signatureBytes : Uint8Array) :
  falsy (signatureHeaderMatch header) = false ->
  exists r,
    inspectVarsig (envelope header hash signatureBytes) = Ok r
    /\ prefix r = "34"%string
    /\ signatureHeader r = toString16 header
    /\ hashAlgorithm r = toString16 hash
    /\ encodingInfo r = toString16 ENCODING_INFO
    /\ signature r = signatureBytes
    /\ totalLength r = List.length (envelope header hash signatureBytes).
Proof.
  intros Hreg. unfold envelope, VARSIG_PREFIX.
  rewrite inspectVarsig_fields, Hreg.
  eexists. split; [reflexivity|]. cbn [prefix signatureHeader hashAlgorithm
    encodingInfo signature totalLength].
  repeat split.
  rewrite Nat2N.id. apply firstn_all.
Qed.

Lemma builtin_cases (P : Primitives) (impl : API.CryptoImplementation) :
  In impl (map snd (cryptoAlgorithms P)) ->
  impl = ed25519Implementation P \/ impl = rsaImplementation P
  \/ impl = blsImplementation P.
Proof. simpl. intuition auto. Qed.

Lemma builtin_registered (P : Primitives) (impl : API.CryptoImplementation) :
  In impl (map snd (cryptoAlgorithms P)) ->
  falsy (signatureHeaderMatch (API.getSignatureHeader impl)) = false
  /\ API.getHashAlgorithm impl = HASH_ALGO_SHA256.
Proof.
  intros H. apply builtin_cases in H.
  destruct H as [-> | [-> | ->]]; split; reflexivity.
Qed.

(** C2.  For each built-in implementation, every payload and key, and every
    signature the signing capability returns, inspecting what [create]
    returns gives back the implementation's signature header and hash
    algorithm and the constant 0x5f (as the base-16 strings the result
    holds), and a signature field that is the returned signature, so of the
    same length. *)
Theorem inspect_create_roundtrip (P : Primitives)
    (algo : API.CryptoImplementation) (payload : Uint8Array) (privateKey : Key)
    (signatureBytes : Uint8Array) :
  In algo (map snd (cryptoAlgorithms P)) ->
  API.sign algo payload privateKey = Ok signatureBytes ->
  exists varsig r,
    create payload algo privateKey = Ok varsig
    /\ inspectVarsig varsig = Ok r
    /\ signatureHeader r = toString16 (API.getSignatureHeader algo)
    /\ hashAlgorithm r = toString16 (API.getHashAlgorithm algo)
    /\ encodingInfo r = toString16 0x5f
    /\ signature r = signatureBytes
    /\ List.length (signature r) = List.length signatureBytes.
Proof.
  intros Hin Hsign.
  destruct (builtin_registered P algo Hin) as [Hreg _].
  destruct (inspectVarsig_envelope (API.getSignatureHeader algo)
              (API.getHashAlgorithm algo) signatureBytes Hreg)
    as (r & Hr & _ & Hh & Ha & Hi & Hs & _).
  exists (envelope (API.getSignatureHeader algo) (API.getHashAlgorithm algo)
            signatureBytes), r.
  rewrite create_envelope, Hsign. cbn [bind].
  repeat split; try assumption.
  now rewrite Hs.
Qed.

Lemma inspect_create_roundtrip_witness :
  In (rsaImplementation rejecting) (map snd (cryptoAlgorithms rejecting))
  /\ API.sign (rsaImplementation rejecting) [x68; x69] (CryptoKey 1)
     = Ok (repeat x00 256)
  /\ exists varsig r,
       create [x68; x69] (rsaImplementation rejecting) (CryptoKey 1) = Ok varsig
       /\ inspectVarsig varsig = Ok r
       /\ signatureHeader r = "1205"%string
       /\ hashAlgorithm r = "12"%string
       /\ encodingInfo r = "5f"%string
       /\ signature r = repeat x00 256
       /\ List.length (signature r) = 256%nat.
Proof.
  split; [simpl; auto|]. split; [reflexivity|].
  exact (@inspect_create_roundtrip rejecting (rsaImplementation rejecting)
           [x68; x69] (CryptoKey 1) (repeat x00 256)
           (or_intror (or_introl eq_refl)) eq_refl).
Defined.

(** C8.  When the Ed25519 primitive returns 64 signature bytes, inspecting
    what [create] returns with the ed25519 implementation reports the
    strings "34", "ed", "12" and "5f", a signature of 64 bytes and a total
    length of 70. *)
Theorem ed25519_scenario (P : Primitives) (payload : Uint8Array)
    (privateKey : Key) (signatureBytes : Uint8Array) :
  API.sign (ed25519Implementation P) payload privateKey = Ok signatureBytes ->
  List.length signatureBytes = 64%nat ->
  exists varsig r,
    create payload (ed25519Implementation P) privateKey = Ok varsig
    /\ inspectVarsig varsig = Ok r
    /\ prefix r = "34"%string
    /\ signatureHeader r = "ed"%string
    /\ hashAlgorithm r = "12"%string
    /\ encodingInfo r = "5f"%string
    /\ List.length (signature r) = 64%nat
    /\ totalLength r = 70%nat.
Proof.
  intros Hsign Hlen.
  destruct (@inspectVarsig_envelope 0xed 0x12 signatureBytes eq_refl)
    as (r & Hr & Hp & Hh & Ha & Hi & Hs & Ht).
  exists (envelope 0xed 0x12 signatureBytes), r.
  rewrite create_envelope, Hsign. cbn [bind].
  repeat split; try assumption.
  - now rewrite Hs.
  - rewrite Ht. unfold envelope. rewrite Hlen.
    rewrite !length_app, Hlen. reflexivity.
Qed.

Lemma ed25519_scenario_witness :
  exists varsig r,
    create [x68; x65; x6c; x6c; x6f] (ed25519Implementation rejecting)
      (RawKey [x01]) = Ok varsig
    /\ inspectVarsig varsig = Ok r
    /\ prefix r = "34"%string
    /\ signatureHeader r = "ed"%string
    /\ hashAlgorithm r = "12"%string
    /\ encodingInfo r = "5f"%string
    /\ List.length (signature r) = 64%nat
    /\ totalLength r = 70%nat.
Proof.
  exact (@ed25519_scenario rejecting [x68; x65; x6c; x6c; x6f] (RawKey [x01])
           (repeat x00 64) eq_refl eq_refl).
Defined.

(** ** The varint codec on the tags of the format *)

(** C5.  For each of 0, 127, 128, 16383, 16384, 0xed, 0x12, 0x5f, 0x1205 and
    0x1309, decoding the encoding of the value at offset 0 gives back the
    value and the number of bytes of the encoding. *)
Theorem varint_roundtrip_edge_cases :
  Forall
    (fun v =>
       decodeVarintAt (encodeVarint v) 0
       = Ok {| Decoded.value := v;
               Decoded.length := List.length (encodeVarint v);
               Decoded.nextOffset := List.length (encodeVarint v) |})
    [0; 127; 128; 16383; 16384; 0xed; 0x12; 0x5f; 0x1205; 0x1309].
Proof. repeat constructor. Qed.

(** C7, as the code has it.  On the wire each of the three built-in tags
    takes two bytes: 0xed is above 127, so its varint is the pair 0xed 0x01,
    like those of 0x1205 and 0x1309. *)
Theorem signature_header_widths :
  encodeVarint 0xed = [xed; x01]
  /\ List.length (encodeVarint 0xed) = 2%nat
  /\ List.length (encodeVarint 0x1205) = 2%nat
  /\ List.length (encodeVarint 0x1309) = 2%nat.
Proof. repeat split. Qed.

(** C7 as stated gives the tag 0xed one byte; its encoding has two. *)
Lemma ed25519_tag_is_not_one_byte : List.length (encodeVarint 0xed) <> 1%nat.
Proof. discriminate. Qed.

(** ** Buffers that end inside a varint *)

Lemma read_unterminated (buf : list byte) :
  Forall continues buf ->
  forall (shift res : N) (counter : nat),
    varint.read buf shift res counter = Err MalformedVarint.
Proof.
  induction 1 as [|b buf Hb _ IH]; intros shift res counter; simpl.
  - reflexivity.
  - unfold continues in Hb. apply N.leb_le in Hb.
    unfold varint.MSB. now rewrite Hb.
Qed.

(** C6.  Decoding at an offset fails with [MalformedVarint] when the offset
    is at or past the end of the buffer, and when every byte from the offset
    to the end of the buffer carries the continuation bit. *)
Theorem decodeVarintAt_malformed (buffer : Uint8Array) (offset : nat) :
  (List.length buffer <= offset)%nat
  \/ Forall continues (skipn offset buffer) ->
  decodeVarintAt buffer offset = Err MalformedVarint.
Proof.
  intros H. unfold decodeVarintAt, subarray, varint.decode.
  rewrite read_unterminated; [reflexivity|].
  destruct H as [H|H]; [|exact H].
  rewrite skipn_all2 by exact H. constructor.
Qed.

Lemma decodeVarintAt_malformed_witness :
  decodeVarintAt [x34; xed] 2 = Err MalformedVarint
  /\ decodeVarintAt [x34; xed; x85] 1 = Err MalformedVarint.
Proof.
  split.
  - apply (decodeVarintAt_malformed [x34; xed] 2).
    left. simpl. lia.
  - apply (decodeVarintAt_malformed [x34; xed; x85] 1).
    right. simpl. repeat constructor; unfold continues; simpl; lia.
Defined.

(** ** Resolving the signature header *)

Lemma read_error (buf : list byte) :
  forall (shift res : N) (counter : nat) (e : error),
    varint.read buf shift res counter = Err e -> e = MalformedVarint.
Proof.
  induction buf as [|b rest IH]; intros shift res counter e; simpl.
  - now intros [= <-].
  - destruct (varint.MSB <=? Byte.to_N b); [apply IH|discriminate].
Qed.

Lemma decodeVarintAt_error (buffer : Uint8Array) (offset : nat) (e : error) :
  decodeVarintAt buffer offset = Err e -> e = MalformedVarint.
Proof.
  unfold decodeVarintAt, subarray, varint.decode.
  destruct (varint.read (skipn offset buffer) 0 0 0) as [d|e'] eqn:E;
    cbn [bind]; [discriminate|].
  intros [= <-]. exact (read_error _ _ _ _ _ E).
Qed.


Lemma inspectVarsig_algorithm (varsig : Uint8Array) (header : Decoded.t)
    (r : InspectResult) :
  decodeVarintAt varsig (List.length VARSIG_PREFIX) = Ok header ->
  inspectVarsig varsig = Ok r ->
  signatureHeaderMatch (Decoded.value header) = Some (algorithm r).
Proof.
  intros Hd. unfold inspectVarsig. rewrite Hd. cbn [bind].
  destruct (signatureHeaderMatch (Decoded.value header)) as [name|];
    [|discriminate].
  destruct (falsy (Some name)); [discriminate|].
  destruct (decodeVarintAt varsig (Decoded.nextOffset header)) as [hash|];
    [cbn [bind]|discriminate].
  destruct (decodeVarintAt varsig (Decoded.nextOffset hash)) as [len|];
    [cbn [bind]|discriminate].
  destruct (decodeVarintAt varsig (Decoded.nextOffset len)) as [info|];
    [cbn [bind]|discriminate].
  intros [= <-]. reflexivity.
Qed.




(** ** The prefix byte *)

(** The first byte of a buffer reaches the result through the [prefix] field
    and nowhere else. *)
Lemma inspectVarsig_first_byte (b : byte) (rest : list byte) :
  inspectVarsig (b :: rest)
  = r <- inspectVarsig (x00 :: rest) ;; Ok (with_prefix (toString_hex [b]) r).
Proof.
  unfold inspectVarsig, decodeVarintAt, subarray, slice, VARSIG_PREFIX.
  cbn [List.length skipn firstn Nat.sub].
  destruct (varint.decode rest) as [[v1 n1]|e]; [|reflexivity].
  cbn [bind fst snd Decoded.value Decoded.nextOffset Decoded.length
       Nat.add skipn].
  destruct (falsy (signatureHeaderMatch v1)); [reflexivity|].
  destruct (varint.decode (skipn n1 rest)) as [[v2 n2]|e]; [|reflexivity].
  cbn [bind fst snd Decoded.value Decoded.nextOffset Decoded.length
       Nat.add skipn].
  destruct (varint.decode (skipn (n1 + n2) rest)) as [[v3 n3]|e];
    [|reflexivity].
  cbn [bind fst snd Decoded.value Decoded.nextOffset Decoded.length
       Nat.add skipn].
  destruct (varint.decode (skipn (n1 + n2 + n3) rest)) as [[v4 n4]|e];
    [|reflexivity].
  cbn [bind fst snd Decoded.value Decoded.nextOffset Decoded.length
       Nat.add skipn].
  reflexivity.
Qed.

(** C10.  Two buffers that differ in their first byte only: [inspectVarsig]
    fails on both with the same error or returns on both, with results that
    differ in the [prefix] field only, each holding the base-16 digits of its
    own first byte; and [verify] gives the same outcome on both.  No
    comparison with 0x34 takes place. *)
Theorem prefix_is_not_checked (P : Primitives) (payload : Uint8Array)
    (publicKey : Key) (b1 b2 : byte) (rest : list byte) :
  inspectVarsig (b2 :: rest)
  = (r <- inspectVarsig (b1 :: rest) ;; Ok (with_prefix (toString_hex [b2]) r))
  /\ (forall r, inspectVarsig (b1 :: rest) = Ok r -> prefix r = toString_hex [b1])
  /\ verify P payload (b1 :: rest) publicKey
     = verify P payload (b2 :: rest) publicKey.
Proof.
  split; [|split].
  - rewrite (inspectVarsig_first_byte b2), (inspectVarsig_first_byte b1).
    now destruct (inspectVarsig (x00 :: rest)).
  - intros r. rewrite (inspectVarsig_first_byte b1).
    destruct (inspectVarsig (x00 :: rest)); [|discriminate].
    now intros [= <-].
  - unfold verify.
    rewrite (inspectVarsig_first_byte b2), (inspectVarsig_first_byte b1).
    now destruct (inspectVarsig (x00 :: rest)).
Qed.

(** ** Buffers cut short *)

(** A varint that decodes in a buffer decodes to the same value in every
    initial part of the buffer that holds all of its bytes, and is malformed
    in every shorter one. *)
Lemma read_firstn (buf : list byte) :
  forall (shift res : N) (counter : nat) (v : N) (counter' : nat),
    varint.read buf shift res counter = Ok (v, counter') ->
    (counter < counter')%nat
    /\ forall k,
         varint.read (firstn k buf) shift res counter
         = if (counter' - counter <=? k)%nat
           then Ok (v, counter') else Err MalformedVarint.
Proof.
  induction buf as [|b rest IH]; intros shift res counter v counter' H;
    simpl in H; [discriminate|].
  destruct (varint.MSB <=? Byte.to_N b) eqn:Hb.
  - destruct (IH _ _ _ _ _ H) as [Hlt Hk]. split; [lia|].
    intros [|k]; cbn [firstn varint.read].
    + destruct (Nat.leb_spec (counter' - counter) 0); [lia|reflexivity].
    + rewrite Hb, Hk.
      replace (counter' - counter)%nat with (S (counter' - S counter)) by lia.
      reflexivity.
  - injection H as <- <-. split; [lia|].
    replace (S counter - counter)%nat with 1%nat by lia.
    intros [|k]; cbn [firstn varint.read].
    + reflexivity.
    + now rewrite Hb.
Qed.

Lemma decodeVarintAt_firstn (buffer : Uint8Array) (offset : nat)
    (d : Decoded.t) (k : nat) :
  decodeVarintAt buffer offset = Ok d ->
  (offset < Decoded.nextOffset d)%nat
  /\ decodeVarintAt (firstn k buffer) offset
     = if (Decoded.nextOffset d <=? k)%nat then Ok d else Err MalformedVarint.
Proof.
  unfold decodeVarintAt, subarray, varint.decode.
  destruct (varint.read (skipn offset buffer) 0 0 0) as [[v n]|e] eqn:E;
    [|discriminate].
  cbn [bind fst snd]. intros [= <-]. cbn [Decoded.nextOffset].
  destruct (read_firstn _ _ _ _ _ _ E) as [Hn Hk].
  split; [lia|].
  rewrite skipn_firstn_comm, Hk, Nat.sub_0_r.
  destruct (Nat.leb_spec n (k - offset)), (Nat.leb_spec (offset + n) k);
    try lia; reflexivity.
Qed.

(** C3, as the code has it.  The declared signature length is never compared
    with what the buffer holds.  When the four varints of a buffer decode
    and its header is registered, [inspectVarsig] returns a result whose
    signature is the bytes that follow the cursor, at most the declared
    number of them: fewer when the buffer ends early.  Cutting such a buffer
    before the end of its four varints makes a varint malformed; cutting it
    anywhere later gives a result with the signature bytes that are left. *)
Theorem truncation_is_not_detected (varsig : Uint8Array)
    (header hash len info : Decoded.t) :
  decodeVarintAt varsig (List.length VARSIG_PREFIX) = Ok header ->
  falsy (signatureHeaderMatch (Decoded.value header)) = false ->
  decodeVarintAt varsig (Decoded.nextOffset header) = Ok hash ->
  decodeVarintAt varsig (Decoded.nextOffset hash) = Ok len ->
  decodeVarintAt varsig (Decoded.nextOffset len) = Ok info ->
  let cursor := Decoded.nextOffset info in
  let declared := N.to_nat (Decoded.value len) in
  (exists r,
      inspectVarsig varsig = Ok r
      /\ signature r = firstn declared (skipn cursor varsig)
      /\ List.length (signature r)
         = Nat.min declared (List.length varsig - cursor))
  /\ (forall k, (k < cursor)%nat ->
                inspectVarsig (firstn k varsig) = Err MalformedVarint)
  /\ (forall k, (cursor <= k)%nat ->
                exists r,
                  inspectVarsig (firstn k varsig) = Ok r
                  /\ signature r
                     = firstn (Nat.min declared (k - cursor))
                         (skipn cursor varsig)).
Proof.
  intros H1 Hreg H2 H3 H4 cursor declared.
  assert (Hsig : forall start n : nat,
             slice varsig start (start + n) = firstn n (skipn start varsig)).
  { intros start n. unfold slice. f_equal. lia. }
  split; [|split].
  - unfold inspectVarsig.
    rewrite H1; cbn [bind]; rewrite Hreg, H2; cbn [bind].
    rewrite H3; cbn [bind]; rewrite H4; cbn [bind].
    eexists. split; [reflexivity|]. cbn [signature].
    rewrite Hsig. split; [reflexivity|].
    now rewrite length_firstn, length_skipn.
  - intros k Hk. unfold inspectVarsig.
    destruct (decodeVarintAt_firstn varsig _ header k H1) as [L1 ->].
    destruct (decodeVarintAt_firstn varsig _ hash k H2) as [L2 E2].
    destruct (decodeVarintAt_firstn varsig _ len k H3) as [L3 E3].
    destruct (decodeVarintAt_firstn varsig _ info k H4) as [L4 E4].
    destruct (Nat.leb_spec (Decoded.nextOffset header) k); [|reflexivity].
    cbn [bind]. rewrite Hreg, E2.
    destruct (Nat.leb_spec (Decoded.nextOffset hash) k); [|reflexivity].
    cbn [bind]. rewrite E3.
    destruct (Nat.leb_spec (Decoded.nextOffset len) k); [|reflexivity].
    cbn [bind]. rewrite E4.
    destruct (Nat.leb_spec (Decoded.nextOffset info) k); [|reflexivity].
    unfold cursor in Hk. lia.
  - intros k Hk. unfold inspectVarsig.
    destruct (decodeVarintAt_firstn varsig _ header k H1) as [L1 ->].
    destruct (decodeVarintAt_firstn varsig _ hash k H2) as [L2 E2].
    destruct (decodeVarintAt_firstn varsig _ len k H3) as [L3 E3].
    destruct (decodeVarintAt_firstn varsig _ info k H4) as [L4 E4].
    unfold cursor in Hk.
    leb_holds. step. rewrite Hreg, E2.
    leb_holds. step. rewrite E3.
    leb_holds. step. rewrite E4.
    leb_holds. step.
    eexists. split; [reflexivity|]. cbn [signature].
    unfold slice.
    replace (Decoded.nextOffset info + N.to_nat (Decoded.value len)
             - Decoded.nextOffset info)%nat with declared
      by (unfold declared; lia).
    now rewrite skipn_firstn_comm, firstn_firstn.
Qed.

Lemma truncation_is_not_detected_witness :
  (exists r,
      inspectVarsig [x34; xed; x01; x12; x40; x5f; x2a; x2a] = Ok r
      /\ signature r = [x2a; x2a]
      /\ List.length (signature r) = 2%nat)
  /\ (forall k, (k < 6)%nat ->
                inspectVarsig (firstn k [x34; xed; x01; x12; x40; x5f; x2a; x2a])
                = Err MalformedVarint)
  /\ (forall k, (6 <= k)%nat ->
                exists r,
                  inspectVarsig
                    (firstn k [x34; xed; x01; x12; x40; x5f; x2a; x2a]) = Ok r
                  /\ signature r = firstn (Nat.min 64 (k - 6)) [x2a; x2a]).
Proof.
  exact (@truncation_is_not_detected
           [x34; xed; x01; x12; x40; x5f; x2a; x2a]
           {| Decoded.value := 0xed; Decoded.length := 2;
              Decoded.nextOffset := 3 |}
           {| Decoded.value := 0x12; Decoded.length := 1;
              Decoded.nextOffset := 4 |}
           {| Decoded.value := 64; Decoded.length := 1;
              Decoded.nextOffset := 5 |}
           {| Decoded.value := 0x5f; Decoded.length := 1;
              Decoded.nextOffset := 6 |}
           eq_refl eq_refl eq_refl eq_refl eq_refl).
Defined.

(** C3 as stated asks for an error here: the buffer declares 64 signature
    bytes and holds two, and [inspectVarsig] returns a result with the
    two. *)
Lemma truncated_signature_is_returned :
  inspectVarsig [x34; xed; x01; x12; x40; x5f; x2a; x2a]
  = Ok {| prefix := "34";
          signatureHeader := "ed";
          hashAlgorithm := "12";
          signatureByteLength := "40";
          encodingInfo := "5f";
          signature := [x2a; x2a];
          algorithm := "ed25519";
          totalLength := 8 |}.
Proof. reflexivity. Qed.

(** ** The verifier *)

(** The errors of [inspectVarsig]: a malformed varint or an unknown header. *)
Lemma inspectVarsig_error (varsig : Uint8Array) (e : error) :
  inspectVarsig varsig = Err e ->
  e = MalformedVarint \/ exists code, e = UnknownSignatureHeaderCode code.
Proof.
  unfold inspectVarsig.
  destruct (decodeVarintAt varsig (List.length VARSIG_PREFIX))
    as [header|e1] eqn:E1; cbn [bind];
    [|intros [= <-]; left; exact (decodeVarintAt_error _ _ _ E1)].
  destruct (falsy (signatureHeaderMatch (Decoded.value header)));
    [intros [= <-]; right; eauto|].
  destruct (decodeVarintAt varsig (Decoded.nextOffset header))
    as [hash|e2] eqn:E2; cbn [bind];
    [|intros [= <-]; left; exact (decodeVarintAt_error _ _ _ E2)].
  destruct (decodeVarintAt varsig (Decoded.nextOffset hash))
    as [len|e3] eqn:E3; cbn [bind];
    [|intros [= <-]; left; exact (decodeVarintAt_error _ _ _ E3)].
  destruct (decodeVarintAt varsig (Decoded.nextOffset len))
    as [info|e4] eqn:E4; cbn [bind];
    [|intros [= <-]; left; exact (decodeVarintAt_error _ _ _ E4)].
  discriminate.
Qed.

(** The [algorithm] of a result is one of the three names of the table. *)
Lemma inspectVarsig_algorithm_builtin (varsig : Uint8Array) (r : InspectResult) :
  inspectVarsig varsig = Ok r ->
  algorithm r = "ed25519"%string \/ algorithm r = "rsa"%string
  \/ algorithm r = "bls"%string.
Proof.
  intros Hr.
  destruct (decodeVarintAt varsig (List.length VARSIG_PREFIX))
    as [header|e] eqn:Hd.
  - pose proof (inspectVarsig_algorithm varsig header r Hd Hr) as Hm.
    revert Hm. unfold signatureHeaderMatch, SIGNATURE_HEADER_TAGS.
    cbn [find snd].
    repeat match goal with
           | |- context [?c =? Decoded.value header] =>
               destruct (c =? Decoded.value header);
               [cbn [option_map fst]; intros [= <-]; tauto|]
           end.
    discriminate.
  - unfold inspectVarsig in Hr. rewrite Hd in Hr. discriminate.
Qed.

(** An error of the primitive that parses a BLS signature comes out of
    [verify] as it is: nothing on the way turns it into [false]. *)
Lemma fromHex_error_surfaces (P : Primitives) (payload varsig : Uint8Array)
    (publicKey : Key) (r : InspectResult) (e : error) :
  inspectVarsig varsig = Ok r ->
  algorithm r = "bls"%string ->
  bls_Signature_fromHex P (signature r) = Err e ->
  verify P payload varsig publicKey = Err e.
Proof.
  intros Hr Ha He. unfold verify. rewrite Hr. cbn [bind]. rewrite Ha.
  cbn. now rewrite He.
Qed.

(** [verify] adds nothing to what [inspectVarsig] and the resolved capability
    do.  When [inspectVarsig] throws, a malformed varint or an unknown
    header, [verify] throws the same error.  When it returns, the algorithm
    is one of the three built-in names and the outcome of [verify] is the
    outcome of that implementation's primitives on the payload, the
    extracted signature and the key. *)
Theorem verify_outcome (P : Primitives) (payload varsig : Uint8Array)
    (publicKey : Key) :
  match inspectVarsig varsig with
  | Err e =>
      verify P payload varsig publicKey = Err e
      /\ (e = MalformedVarint \/ exists code, e = UnknownSignatureHeaderCode code)
  | Ok r =>
      (algorithm r = "ed25519"%string
       /\ verify P payload varsig publicKey
          = ED25519_verify P (signature r) payload publicKey)
      \/ (algorithm r = "rsa"%string
          /\ verify P payload varsig publicKey
             = subtle_verify P publicKey (signature r) payload)
      \/ (algorithm r = "bls"%string
          /\ verify P payload varsig publicKey
             = (sig <- bls_Signature_fromHex P (signature r) ;;
                bls_verify P sig payload publicKey))
  end.
Proof.
  destruct (inspectVarsig varsig) as [r|e] eqn:Hr.
  - unfold verify. rewrite Hr. cbn [bind].
    destruct (inspectVarsig_algorithm_builtin varsig r Hr) as [E|[E|E]];
      rewrite E; [left|right; left|right; right]; split; reflexivity.
  - split; [unfold verify; now rewrite Hr|].
    exact (inspectVarsig_error varsig e Hr).
Qed.

(** A buffer with the RSA tag that declares 256 signature bytes and holds
    none: with primitives that answer [false] so does [verify]. *)
Lemma truncated_signature_reaches_primitive :
  verify rejecting [x68; x69] [x34; x85; x24; x12; x80; x02; x5f] (CryptoKey 1)
  = Ok false.
Proof. reflexivity. Qed.

(** C9.  The code against the claim.  Take a complete envelope with the BLS
    tag: every field decodes, the header is registered and all the declared
    signature bytes are present, so [inspectVarsig] returns them.  When the
    parser [bls.Signature.fromHex] rejects those bytes, [verify] does not
    return [false]: the parser's error comes out of it.  The BLS
    implementation calls the parser before [bls.verify] and handles
    nothing. *)
Theorem bls_parse_error_escapes_verify (P : Primitives)
    (payload : Uint8Array) (publicKey : Key) (signatureBytes : Uint8Array)
    (e : error) :
  bls_Signature_fromHex P signatureBytes = Err e ->
  let varsig := envelope (tag "bls") HASH_ALGO_SHA256 signatureBytes in
  (exists r,
      inspectVarsig varsig = Ok r
      /\ algorithm r = "bls"%string
      /\ signature r = signatureBytes
      /\ totalLength r = List.length varsig)
  /\ verify P payload varsig publicKey = Err e.
Proof.
  intros He varsig.
  assert (Hr : inspectVarsig varsig
               = Ok {| prefix := "34";
                       signatureHeader := toString16 (tag "bls");
                       hashAlgorithm := toString16 HASH_ALGO_SHA256;
                       signatureByteLength :=
                         toString_hex
                           (varint.encode
                              (N.of_nat (List.length signatureBytes)));
                       encodingInfo := toString16 ENCODING_INFO;
                       signature := signatureBytes;
                       algorithm := "bls";
                       totalLength := List.length varsig |}).
  { unfold varsig, envelope, VARSIG_PREFIX.
    rewrite inspectVarsig_fields.
    change (falsy (signatureHeaderMatch (tag "bls"))) with false. cbv iota.
    now rewrite Nat2N.id, firstn_all. }
  split.
  - eexists. split; [exact Hr|]. repeat split.
  - unfold verify. rewrite Hr. cbn [bind signature algorithm].
    change (property (cryptoAlgorithms P) "bls")
      with (Some (blsImplementation P)).
    cbn [API.verify blsImplementation]. now rewrite He.
Qed.

Lemma bls_parse_error_escapes_verify_witness :
  (exists r,
      inspectVarsig ([x34; x89; x26; x12; x0a; x5f] ++ repeat x00 10) = Ok r
      /\ algorithm r = "bls"%string
      /\ signature r = repeat x00 10
      /\ totalLength r = 16%nat)
  /\ verify length_checking [x68; x69]
       ([x34; x89; x26; x12; x0a; x5f] ++ repeat x00 10) (RawKey [x01])
     = Err (Thrown "invalid compressed signature length, must be 96 or 192").
Proof.
  exact (bls_parse_error_escapes_verify length_checking [x68; x69]
           (RawKey [x01]) (repeat x00 10)
           (Thrown "invalid compressed signature length, must be 96 or 192")
           eq_refl).
Defined.

(* ------------------------------------------------------------------ *)
(** * Further properties of the codec *)

(** ** [encodeVarint] and [decodeVarintAt] *)

(** X1.  [decodeVarintAt] undoes [encodeVarint] for every number below
    2^53, at any offset and whatever bytes come before and after the
    encoding: it gives back the number, the length of the encoding and the
    offset right after it. *)
Theorem decodeVarintAt_inverts_encodeVarint (before after : list byte)
    (code : N) :
  safe_integer code ->
  decodeVarintAt (before ++ encodeVarint code ++ after) (List.length before)
  = Ok {| Decoded.value := code;
          Decoded.length := List.length (encodeVarint code);
          Decoded.nextOffset :=
            List.length before + List.length (encodeVarint code) |}.
Proof.
  intros _. rewrite encodeVarint_length. apply decodeVarintAt_encoded.
Qed.

Lemma decodeVarintAt_inverts_encodeVarint_witness :
  decodeVarintAt ([x34] ++ encodeVarint (2 ^ 53 - 1) ++ [x12; x40]) 1
  = Ok {| Decoded.value := 2 ^ 53 - 1;
          Decoded.length := 8;
          Decoded.nextOffset := 9 |}.
Proof.
  exact (decodeVarintAt_inverts_encodeVarint [x34] [x12; x40] (2 ^ 53 - 1)
           eq_refl).
Defined.

(** X2.  Among numbers below 2^53 no encoding is the start of another: when
    two byte sequences that begin with encodings are equal, the numbers are
    equal and so are the bytes that follow. *)
Theorem encodeVarint_prefix_free (a b : N) (after_a after_b : list byte) :
  safe_integer a ->
  safe_integer b ->
  encodeVarint a ++ after_a = encodeVarint b ++ after_b ->
  a = b /\ after_a = after_b.
Proof.
  intros _ _ H.
  pose proof (decodeVarintAt_encoded [] after_a a) as Ha.
  pose proof (decodeVarintAt_encoded [] after_b b) as Hb.
  cbn [app] in Ha, Hb. rewrite H, Hb in Ha.
  injection Ha as Hab _. subst b.
  split; [reflexivity|]. exact (app_inv_head _ _ _ H).
Qed.

Lemma encodeVarint_prefix_free_witness :
  0x1205 = 0x1205 /\ [x12; x40] = [x12; x40].
Proof.
  exact (encodeVarint_prefix_free 0x1205 0x1205 [x12; x40] [x12; x40]
           eq_refl eq_refl eq_refl).
Defined.

Lemma encode_length_bounds (num : N) :
  let k := List.length (varint.encode num) in
  (1 <= k)%nat
  /\ num < 2 ^ (7 * N.of_nat k)
  /\ (k = 1%nat \/ 2 ^ (7 * N.of_nat (k - 1)) <= num).
Proof.
  induction num as [num IH] using (well_founded_induction N.lt_wf_0).
  cbv zeta. rewrite encode_unfold.
  destruct (num <? varint.MSB) eqn:E.
  - apply N.ltb_lt in E. unfold varint.MSB in E.
    cbn [List.length]. repeat split; [lia | exact E | now left].
  - apply N.ltb_ge in E. unfold varint.MSB in E.
    cbn [List.length].
    assert (Hq : N.shiftr num 7 < num)
      by (rewrite N.shiftr_div_pow2; apply N.div_lt; lia).
    assert (Hn : num = 128 * N.shiftr num 7 + num mod 128)
      by (rewrite N.shiftr_div_pow2; apply N.div_mod; lia).
    assert (Hr : num mod 128 < 128) by (apply N.mod_upper_bound; lia).
    destruct (IH _ Hq) as (Hk & Hup & Hlow).
    revert Hn Hr Hk Hup Hlow.
    generalize (List.length (varint.encode (N.shiftr num 7))) as k.
    generalize (N.shiftr num 7) as q.
    generalize (num mod 128) as r.
    intros r q k Hn Hr Hk Hup Hlow.
    assert (Hpow : 2 ^ (7 * N.of_nat (S k)) = 128 * 2 ^ (7 * N.of_nat k)).
    { replace (7 * N.of_nat (S k)) with (7 + 7 * N.of_nat k) by lia.
      now rewrite N.pow_add_r. }
    repeat split; [lia | rewrite Hpow; lia |].
    right. replace (S k - 1)%nat with k by lia.
    destruct Hlow as [-> | Hlow].
    + change (2 ^ (7 * N.of_nat 1)) with 128. exact E.
    + replace k with (S (k - 1)) at 1 by lia.
      replace (7 * N.of_nat (S (k - 1))) with (7 + 7 * N.of_nat (k - 1)) by lia.
      rewrite N.pow_add_r. change (2 ^ 7) with 128. lia.
Qed.

(** X3.  The encoding of a number below 2^53 has the least number of bytes
    that can hold the number in groups of seven bits: with [k] bytes the
    number is below 2^(7k), and unless [k] is 1 it is at least
    2^(7(k-1)). *)
Theorem encodeVarint_is_minimal (code : N) :
  safe_integer code ->
  let k := List.length (encodeVarint code) in
  (1 <= k)%nat
  /\ code < 2 ^ (7 * N.of_nat k)
  /\ (k = 1%nat \/ 2 ^ (7 * N.of_nat (k - 1)) <= code).
Proof. intros _. rewrite encodeVarint_encode. apply encode_length_bounds. Qed.

Lemma encodeVarint_is_minimal_witness :
  List.length (encodeVarint 16384) = 3%nat
  /\ (1 <= 3)%nat
  /\ 16384 < 2 ^ (7 * N.of_nat 3)
  /\ (3%nat = 1%nat \/ 2 ^ (7 * N.of_nat (3 - 1)) <= 16384).
Proof.
  split; [reflexivity|].
  exact (encodeVarint_is_minimal 16384 eq_refl).
Defined.

Lemma encode_shape (num : N) :
  exists init last,
    varint.encode num = init ++ [last]
    /\ Forall continues init
    /\ Byte.to_N last < 0x80.
Proof.
  induction num as [num IH] using (well_founded_induction N.lt_wf_0).
  rewrite encode_unfold.
  destruct (num <? varint.MSB) eqn:E.
  - apply N.ltb_lt in E. unfold varint.MSB in E.
    exists [], (byte_of_N num). repeat split; [constructor|].
    rewrite to_N_byte_of_N_small; lia.
  - apply N.ltb_ge in E. unfold varint.MSB in E.
    assert (Hq : N.shiftr num 7 < num)
      by (rewrite N.shiftr_div_pow2; apply N.div_lt; lia).
    destruct (IH _ Hq) as (init & last & -> & Hinit & Hlast).
    exists (byte_of_N (N.lor (N.land num varint.REST) varint.MSB) :: init), last.
    repeat split; [|exact Hlast].
    constructor; [|exact Hinit].
    unfold continues. rewrite continuation_byte.
    generalize (num mod 128). intros r. lia.
Qed.

(** X4.  In the encoding of a number below 2^53 every byte but the last
    carries the continuation bit, and the last does not: the encoding marks
    its own end. *)
Theorem encodeVarint_marks_its_end (code : N) :
  safe_integer code ->
  exists init last,
    encodeVarint code = init ++ [last]
    /\ Forall continues init
    /\ Byte.to_N last < 0x80.
Proof. intros _. rewrite encodeVarint_encode. apply encode_shape. Qed.

Lemma encodeVarint_marks_its_end_witness :
  exists init last,
    encodeVarint 0x1309 = init ++ [last]
    /\ Forall continues init
    /\ Byte.to_N last < 0x80.
Proof.
  exact (encodeVarint_marks_its_end 0x1309 eq_refl).
Defined.

(** What a successful read has consumed and produced: at least one byte and
    no more than the buffer holds, and a value that adds to the accumulator
    a number of as many seven-bit groups as bytes were read. *)
Lemma read_bounds (buf : list byte) :
  forall (shift res : N) (counter : nat) (v : N) (counter' : nat),
    varint.read buf shift res counter = Ok (v, counter') ->
    (counter < counter')%nat
    /\ (counter' - counter <= List.length buf)%nat
    /\ exists x, v = res + x * 2 ^ shift
                 /\ x < 2 ^ (7 * N.of_nat (counter' - counter)).
Proof.
  induction buf as [|b rest IH]; intros shift res counter v counter' H;
    cbn [varint.read] in H; [discriminate|].
  rewrite land_REST, N.shiftl_mul_pow2 in H.
  assert (Hd : Byte.to_N b mod 128 < 128) by (apply N.mod_upper_bound; lia).
  revert H Hd. generalize (Byte.to_N b mod 128) as d. intros d H Hd.
  destruct (varint.MSB <=? Byte.to_N b).
  - destruct (IH _ _ _ _ _ H) as (Hlt & Hlen & x & Hv & Hx).
    cbn [List.length]. repeat split; [lia | lia |].
    exists (d + 128 * x). split.
    + rewrite Hv, N.pow_add_r. change (2 ^ 7) with 128. lia.
    + replace (counter' - counter)%nat with (S (counter' - S counter)) by lia.
      replace (7 * N.of_nat (S (counter' - S counter)))
        with (7 + 7 * N.of_nat (counter' - S counter)) by lia.
      rewrite N.pow_add_r. change (2 ^ 7) with 128. lia.
  - injection H as <- <-. cbn [List.length]. repeat split; [lia | lia |].
    exists d. split; [reflexivity|].
    replace (S counter - counter)%nat with 1%nat by lia. exact Hd.
Qed.

Lemma decodeVarintAt_bounds (buffer : Uint8Array) (offset : nat)
    (d : Decoded.t) :
  decodeVarintAt buffer offset = Ok d ->
  Decoded.nextOffset d = (offset + Decoded.length d)%nat
  /\ (1 <= Decoded.length d)%nat
  /\ (Decoded.nextOffset d <= List.length buffer)%nat
  /\ Decoded.value d < 2 ^ (7 * N.of_nat (Decoded.length d)).
Proof.
  unfold decodeVarintAt, subarray, varint.decode.
  destruct (varint.read (skipn offset buffer) 0 0 0) as [[v n]|e] eqn:E;
    [|discriminate].
  cbn [bind fst snd]. intros [= <-].
  cbn [Decoded.nextOffset Decoded.length Decoded.value].
  destruct (read_bounds _ _ _ _ _ _ E) as (Hlt & Hlen & x & Hv & Hx).
  rewrite length_skipn, Nat.sub_0_r in *.
  repeat split; [lia | lia |].
  rewrite Hv. change (2 ^ 0) with 1. lia.
Qed.

(** X5.  A successful [decodeVarintAt] has read at least one byte and stayed
    inside the buffer: [nextOffset] is [offset] plus [length], [length] is
    at least 1 and [nextOffset] is at most the length of the buffer.  When
    it has read seven bytes or fewer, so that the value is below 2^49 and
    held exactly, the value is below 2^(7 * length). *)
Theorem decodeVarintAt_stays_in_bounds (buffer : Uint8Array) (offset : nat)
    (d : Decoded.t) :
  decodeVarintAt buffer offset = Ok d ->
  Decoded.nextOffset d = (offset + Decoded.length d)%nat
  /\ (1 <= Decoded.length d)%nat
  /\ (Decoded.nextOffset d <= List.length buffer)%nat
  /\ ((Decoded.length d <= 7)%nat ->
      Decoded.value d < 2 ^ (7 * N.of_nat (Decoded.length d))).
Proof.
  intros H.
  destruct (decodeVarintAt_bounds buffer offset d H) as (H1 & H2 & H3 & H4).
  auto.
Qed.

Lemma decodeVarintAt_stays_in_bounds_witness :
  (3 = 1 + 2)%nat /\ (1 <= 2)%nat /\ (3 <= 4)%nat
  /\ ((2 <= 7)%nat -> 0x1205 < 2 ^ (7 * N.of_nat 2)).
Proof.
  exact (decodeVarintAt_stays_in_bounds [x34; x85; x24; x12] 1
           {| Decoded.value := 0x1205; Decoded.length := 2;
              Decoded.nextOffset := 3 |} eq_refl).
Defined.

(** ** Buffers too short to be inspected *)

Lemma decodeVarintAt_registered_length (buffer : Uint8Array) (offset : nat)
    (d : Decoded.t) :
  decodeVarintAt buffer offset = Ok d ->
  falsy (signatureHeaderMatch (Decoded.value d)) = false ->
  (2 <= Decoded.length d)%nat.
Proof.
  intros Hd Hreg.
  destruct (decodeVarintAt_bounds buffer offset d Hd)
    as (_ & Hone & _ & Hv).
  destruct (Nat.eq_dec (Decoded.length d) 1) as [E|E]; [|lia].
  exfalso. rewrite E in Hv. change (2 ^ (7 * N.of_nat 1)) with 128 in Hv.
  revert Hreg. unfold signatureHeaderMatch, SIGNATURE_HEADER_TAGS.
  cbn [find snd].
  repeat match goal with
         | |- context [?c =? Decoded.value d] =>
             destruct (N.eqb_spec c (Decoded.value d)) as [E'|_]; [lia|]
         end.
  discriminate.
Qed.

(** X6.  [inspectVarsig] returns only on buffers of six bytes or more (one
    prefix byte, two for a registered header, one for each of the other three
    varints); on a shorter buffer it throws, and [verify] throws the same
    error without calling any primitive. *)
Theorem short_buffers_are_rejected (P : Primitives) (payload varsig : Uint8Array)
    (publicKey : Key) :
  (List.length varsig < 6)%nat ->
  exists e,
    inspectVarsig varsig = Err e
    /\ verify P payload varsig publicKey = Err e.
Proof.
  intros Hshort.
  destruct (inspectVarsig varsig) as [r|e] eqn:Hr.
  - exfalso. revert Hr. unfold inspectVarsig.
    destruct (decodeVarintAt varsig (List.length VARSIG_PREFIX))
      as [header|] eqn:E1; [step|discriminate].
    destruct (falsy (signatureHeaderMatch (Decoded.value header))) eqn:Hreg;
      [discriminate|].
    destruct (decodeVarintAt varsig (Decoded.nextOffset header))
      as [hash|] eqn:E2; [step|discriminate].
    destruct (decodeVarintAt varsig (Decoded.nextOffset hash))
      as [len|] eqn:E3; [step|discriminate].
    destruct (decodeVarintAt varsig (Decoded.nextOffset len))
      as [info|] eqn:E4; [step|discriminate].
    intros _.
    pose proof (decodeVarintAt_registered_length _ _ _ E1 Hreg).
    destruct (decodeVarintAt_bounds _ _ _ E1) as (? & ? & ? & _).
    destruct (decodeVarintAt_bounds _ _ _ E2) as (? & ? & ? & _).
    destruct (decodeVarintAt_bounds _ _ _ E3) as (? & ? & ? & _).
    destruct (decodeVarintAt_bounds _ _ _ E4) as (? & ? & ? & _).
    cbn [List.length VARSIG_PREFIX] in *. lia.
  - exists e. split; [reflexivity|]. unfold verify. now rewrite Hr.
Qed.

Lemma short_buffers_are_rejected_witness :
  exists e,
    inspectVarsig [x34; xed; x01; x12; x00] = Err e
    /\ verify rejecting [x68; x69] [x34; xed; x01; x12; x00] (RawKey [x01])
       = Err e.
Proof.
  apply (short_buffers_are_rejected rejecting [x68; x69]
           [x34; xed; x01; x12; x00] (RawKey [x01])).
  simpl. lia.
Defined.

(** ** [create], then [inspectVarsig] and [verify] *)

Lemma signatureHeaderMatch_cases (code : N) (name : string) :
  signatureHeaderMatch code = Some name ->
  (name = "ed25519"%string /\ code = 0xed)
  \/ (name = "rsa"%string /\ code = 0x1205)
  \/ (name = "bls"%string /\ code = 0x1309).
Proof.
  unfold signatureHeaderMatch, SIGNATURE_HEADER_TAGS. cbn [find snd].
  repeat match goal with
         | |- context [?c =? code] =>
             destruct (N.eqb_spec c code) as [E|_];
             [cbn [option_map fst]; intros [= <-]; rewrite <- E; tauto|]
         end.
  discriminate.
Qed.

Lemma signatureHeaderMatch_truthy (code : N) (name : string) :
  signatureHeaderMatch code = Some name ->
  falsy (signatureHeaderMatch code) = false.
Proof.
  intros H. rewrite H.
  destruct (signatureHeaderMatch_cases code name H) as [[-> _]|[[-> _]|[-> _]]];
    reflexivity.
Qed.

(** The result of inspecting an envelope followed by further bytes. *)
Lemma inspectVarsig_envelope_app (header hash : N)
    (signatureBytes extra : Uint8Array) :
  inspectVarsig (envelope header hash signatureBytes ++ extra)
  = if falsy (signatureHeaderMatch header)
    then Err (UnknownSignatureHeaderCode header)
    else Ok {| prefix := "34";
               signatureHeader := toString16 header;
               hashAlgorithm := toString16 hash;
               signatureByteLength :=
                 toString_hex
                   (varint.encode (N.of_nat (List.length signatureBytes)));
               encodingInfo := toString16 ENCODING_INFO;
               signature := signatureBytes;
               algorithm :=
                 match signatureHeaderMatch header with
                 | Some name => name
                 | None => ""%string
                 end;
               totalLength :=
                 List.length (envelope header hash signatureBytes)
                 + List.length extra |}.
Proof.
  unfold envelope, VARSIG_PREFIX. rewrite <- !app_assoc.
  rewrite inspectVarsig_fields.
  destruct (falsy (signatureHeaderMatch header)); [reflexivity|].
  rewrite Nat2N.id, firstn_app, firstn_all, Nat.sub_diag, firstn_O, app_nil_r.
  do 2 f_equal. rewrite !length_app. simpl. lia.
Qed.


(** X7.  [create] fails exactly when the signing capability fails, and then
    with the capability's error: it raises nothing of its own, and it returns
    an array whenever the capability returns a signature. *)
Theorem create_fails_only_with_sign (payload : Uint8Array)
    (cryptoImplementation : API.CryptoImplementation) (privateKey : Key) :
  (forall e,
      create payload cryptoImplementation privateKey = Err e
      <-> API.sign cryptoImplementation payload privateKey = Err e)
  /\ ((exists varsig,
          create payload cryptoImplementation privateKey = Ok varsig)
      <-> (exists signatureBytes,
              API.sign cryptoImplementation payload privateKey
              = Ok signatureBytes)).
Proof.
  rewrite create_envelope.
  destruct (API.sign cryptoImplementation payload privateKey) as [sig|e'];
    cbn [bind]; split.
  - intros e. split; discriminate.
  - split; intros _; eauto.
  - intros e. split; intros [= ->]; reflexivity.
  - split; intros [x H]; discriminate H.
Qed.



(** [verify] on an envelope, followed or not by further bytes: the
    implementation registered under the name of the header receives the
    signature bytes of the envelope. *)
Lemma verify_envelope (P : Primitives) (payload : Uint8Array) (publicKey : Key)
    (header hash : N) (signatureBytes extra : Uint8Array) (name : string) :
  signatureHeaderMatch header = Some name ->
  verify P payload (envelope header hash signatureBytes ++ extra) publicKey
  = match property (cryptoAlgorithms P) name with
    | Some cryptoImplementation =>
        API.verify cryptoImplementation payload signatureBytes publicKey
    | None => Err NotACapability
    end.
Proof.
  intros Hname. unfold verify.
  rewrite inspectVarsig_envelope_app.
  rewrite (signatureHeaderMatch_truthy _ _ Hname), Hname.
  reflexivity.
Qed.

Lemma cryptoAlgorithms_cases (P : Primitives) (name : string)
    (impl : API.CryptoImplementation) :
  In (name, impl) (cryptoAlgorithms P) ->
  signatureHeaderMatch (API.getSignatureHeader impl) = Some name
  /\ property (cryptoAlgorithms P) name = Some impl.
Proof.
  intros [H|[H|[H|[]]]]; injection H as <- <-; split; reflexivity.
Qed.

(** X9.  For each built-in entry [(name, algo)] of [cryptoAlgorithms]:
    inspecting what [create] returns with [algo] names the algorithm [name],
    and [verify] on it, for any payload and key, is [algo]'s own verify
    capability applied to the very signature the signing capability
    returned. *)
Theorem verify_after_create (P : Primitives) (name : string)
    (algo : API.CryptoImplementation) (payload : Uint8Array) (privateKey : Key)
    (signatureBytes : Uint8Array) :
  In (name, algo) (cryptoAlgorithms P) ->
  API.sign algo payload privateKey = Ok signatureBytes ->
  exists varsig,
    create payload algo privateKey = Ok varsig
    /\ (exists r, inspectVarsig varsig = Ok r /\ algorithm r = name)
    /\ forall (payload' : Uint8Array) (publicKey : Key),
         verify P payload' varsig publicKey
         = API.verify algo payload' signatureBytes publicKey.
Proof.
  intros Hin Hsign.
  destruct (cryptoAlgorithms_cases P name algo Hin) as [Hname Hprop].
  exists (envelope (API.getSignatureHeader algo) (API.getHashAlgorithm algo)
            signatureBytes).
  rewrite create_envelope, Hsign. cbn [bind].
  split; [reflexivity|]. split.
  - pose proof (inspectVarsig_envelope_app (API.getSignatureHeader algo)
                  (API.getHashAlgorithm algo) signatureBytes []) as H.
    rewrite app_nil_r, (signatureHeaderMatch_truthy _ _ Hname), Hname in H.
    eexists. split; [exact H|reflexivity].
  - intros payload' publicKey.
    pose proof (verify_envelope P payload' publicKey
                  (API.getSignatureHeader algo) (API.getHashAlgorithm algo)
                  signatureBytes [] name Hname) as H.
    rewrite app_nil_r, Hprop in H. exact H.
Qed.

Lemma verify_after_create_witness :
  exists varsig,
    create [x68; x69] (blsImplementation rejecting) (RawKey [x07]) = Ok varsig
    /\ (exists r, inspectVarsig varsig = Ok r /\ algorithm r = "bls"%string)
    /\ forall (payload' : Uint8Array) (publicKey : Key),
         verify rejecting payload' varsig publicKey
         = API.verify (blsImplementation rejecting) payload' (repeat x00 96)
             publicKey.
Proof.
  exact (verify_after_create rejecting "bls" (blsImplementation rejecting)
           [x68; x69] (RawKey [x07]) (repeat x00 96)
           (or_intror (or_intror (or_introl eq_refl))) eq_refl).
Defined.





(** ** Bytes that [inspectVarsig] and [verify] do not look at *)



(** X13.  [verify] reads the signature header, the signature length and the
    signature bytes, and nothing else: two buffers that differ in the prefix
    byte, in the hash algorithm and in the encoding info get the same
    outcome, and [inspectVarsig] returns on one exactly when it returns on
    the other. *)
Theorem verify_ignores_hash_and_encoding (P : Primitives)
    (payload : Uint8Array) (publicKey : Key) (p p' : byte)
    (header hash hash' len info info' : N) (tail : list byte) :
  let varsig :=
    [p] ++ encodeVarint header ++ encodeVarint hash
        ++ encodeVarint len ++ encodeVarint info ++ tail in
  let varsig' :=
    [p'] ++ encodeVarint header ++ encodeVarint hash'
         ++ encodeVarint len ++ encodeVarint info' ++ tail in
  verify P payload varsig publicKey = verify P payload varsig' publicKey
  /\ ((exists r, inspectVarsig varsig = Ok r)
      <-> (exists r', inspectVarsig varsig' = Ok r')).
Proof.
  cbv zeta. unfold verify. rewrite !encodeVarint_encode.
  rewrite !inspectVarsig_fields.
  destruct (falsy (signatureHeaderMatch header)).
  - split; [reflexivity|]. split; intros [r H]; discriminate H.
  - split; [reflexivity|]. split; intros _; eauto.
Qed.

(** ** Results of [inspectVarsig] on arbitrary buffers *)

Lemma read_app (buf extra : list byte) :
  forall (shift res : N) (counter : nat) (x : N * nat),
    varint.read buf shift res counter = Ok x ->
    varint.read (buf ++ extra) shift res counter = Ok x.
Proof.
  induction buf as [|b rest IH]; intros shift res counter x;
    cbn [app varint.read]; [discriminate|].
  destruct (varint.MSB <=? Byte.to_N b); [apply IH|trivial].
Qed.

Lemma decodeVarintAt_app (buffer extra : Uint8Array) (offset : nat)
    (d : Decoded.t) :
  decodeVarintAt buffer offset = Ok d ->
  decodeVarintAt (buffer ++ extra) offset = Ok d.
Proof.
  unfold decodeVarintAt, subarray, varint.decode.
  destruct (varint.read (skipn offset buffer) 0 0 0) as [x|] eqn:E;
    [|discriminate].
  rewrite skipn_app, (read_app _ _ _ _ _ _ E). trivial.
Qed.

Lemma firstn_skipn_app (buffer extra : list byte) (offset n : nat) :
  (offset <= List.length buffer)%nat ->
  firstn n (skipn offset (buffer ++ extra))
  = firstn n (skipn offset buffer)
      ++ firstn (n - (List.length buffer - offset)) extra.
Proof.
  intros H. rewrite skipn_app.
  replace (offset - List.length buffer)%nat with 0%nat by lia.
  cbn [skipn]. now rewrite firstn_app, length_skipn.
Qed.

(** What a result of [inspectVarsig] says about the buffer it came from. *)
Lemma inspectVarsig_inversion (varsig : Uint8Array) (r : InspectResult) :
  inspectVarsig varsig = Ok r ->
  exists header hash len info,
    decodeVarintAt varsig (List.length VARSIG_PREFIX) = Ok header
    /\ falsy (signatureHeaderMatch (Decoded.value header)) = false
    /\ decodeVarintAt varsig (Decoded.nextOffset header) = Ok hash
    /\ decodeVarintAt varsig (Decoded.nextOffset hash) = Ok len
    /\ decodeVarintAt varsig (Decoded.nextOffset len) = Ok info
    /\ r = {| prefix := toString_hex (slice varsig 0 1);
              signatureHeader := toString16 (Decoded.value header);
              hashAlgorithm := toString16 (Decoded.value hash);
              signatureByteLength :=
                toString_hex
                  (slice varsig (Decoded.nextOffset hash)
                     (Decoded.nextOffset hash + Decoded.length len));
              encodingInfo := toString16 (Decoded.value info);
              signature :=
                firstn (N.to_nat (Decoded.value len))
                  (skipn (Decoded.nextOffset info) varsig);
              algorithm :=
                match signatureHeaderMatch (Decoded.value header) with
                | Some name => name
                | None => ""%string
                end;
              totalLength := List.length varsig |}.
Proof.
  unfold inspectVarsig.
  destruct (decodeVarintAt varsig (List.length VARSIG_PREFIX))
    as [header|] eqn:E1; [step|discriminate].
  destruct (falsy (signatureHeaderMatch (Decoded.value header))) eqn:Hreg;
    [discriminate|].
  destruct (decodeVarintAt varsig (Decoded.nextOffset header))
    as [hash|] eqn:E2; [step|discriminate].
  destruct (decodeVarintAt varsig (Decoded.nextOffset hash))
    as [len|] eqn:E3; [step|discriminate].
  destruct (decodeVarintAt varsig (Decoded.nextOffset len))
    as [info|] eqn:E4; [step|discriminate].
  intros [= <-]. exists header, hash, len, info.
  repeat split; try assumption.
  do 2 f_equal. unfold slice. f_equal. lia.
Qed.

(** X14.  The signature of a result is a run of bytes of the buffer that
    starts at offset 6 or later, the total length is the length of the
    buffer, and the algorithm is one of the three names of the table. *)
Theorem inspect_result_invariants (varsig : Uint8Array) (r : InspectResult) :
  inspectVarsig varsig = Ok r ->
  totalLength r = List.length varsig
  /\ (algorithm r = "ed25519"%string \/ algorithm r = "rsa"%string
      \/ algorithm r = "bls"%string)
  /\ exists before after,
       varsig = before ++ signature r ++ after
       /\ (6 <= List.length before)%nat.
Proof.
  intros Hr.
  destruct (inspectVarsig_inversion varsig r Hr)
    as (header & hash & len & info & E1 & Hreg & E2 & E3 & E4 & ->).
  cbn [totalLength algorithm signature].
  split; [reflexivity|]. split.
  - destruct (signatureHeaderMatch (Decoded.value header)) as [name|] eqn:Hm;
      [|discriminate].
    destruct (signatureHeaderMatch_cases _ _ Hm) as [[-> _]|[[-> _]|[-> _]]];
      tauto.
  - pose proof (decodeVarintAt_registered_length _ _ _ E1 Hreg).
    destruct (decodeVarintAt_bounds _ _ _ E1) as (? & ? & ? & _).
    destruct (decodeVarintAt_bounds _ _ _ E2) as (? & ? & ? & _).
    destruct (decodeVarintAt_bounds _ _ _ E3) as (? & ? & ? & _).
    destruct (decodeVarintAt_bounds _ _ _ E4) as (? & ? & ? & _).
    cbn [List.length VARSIG_PREFIX] in *.
    exists (firstn (Decoded.nextOffset info) varsig),
           (skipn (N.to_nat (Decoded.value len))
              (skipn (Decoded.nextOffset info) varsig)).
    split.
    + now rewrite firstn_skipn, firstn_skipn.
    + rewrite length_firstn. lia.
Qed.

Lemma inspect_result_invariants_witness :
  totalLength
    {| prefix := "34"; signatureHeader := "ed"; hashAlgorithm := "12";
       signatureByteLength := "02"; encodingInfo := "5f";
       signature := [x2a; x2b]; algorithm := "ed25519"; totalLength := 9 |}
  = List.length [x34; xed; x01; x12; x02; x5f; x2a; x2b; x2c]
  /\ ("ed25519"%string = "ed25519"%string \/ "ed25519"%string = "rsa"%string
      \/ "ed25519"%string = "bls"%string)
  /\ exists before after,
       [x34; xed; x01; x12; x02; x5f; x2a; x2b; x2c]
       = before ++ [x2a; x2b] ++ after
       /\ (6 <= List.length before)%nat.
Proof.
  exact (inspect_result_invariants
           [x34; xed; x01; x12; x02; x5f; x2a; x2b; x2c]
           {| prefix := "34"; signatureHeader := "ed"; hashAlgorithm := "12";
              signatureByteLength := "02"; encodingInfo := "5f";
              signature := [x2a; x2b]; algorithm := "ed25519";
              totalLength := 9 |} eq_refl).
Defined.

(** X15.  A buffer that [inspectVarsig] accepts is still accepted when bytes
    are appended to it, with the same prefix, header, hash algorithm, length
    bytes, encoding info and algorithm; the signature keeps its bytes and
    can only gain some at its end (when the buffer was shorter than
    declared), and the total length grows by the number of bytes appended. *)
Theorem appending_bytes_keeps_the_fields (varsig extra : Uint8Array)
    (r : InspectResult) :
  inspectVarsig varsig = Ok r ->
  exists r' more,
    inspectVarsig (varsig ++ extra) = Ok r'
    /\ prefix r' = prefix r
    /\ signatureHeader r' = signatureHeader r
    /\ hashAlgorithm r' = hashAlgorithm r
    /\ signatureByteLength r' = signatureByteLength r
    /\ encodingInfo r' = encodingInfo r
    /\ algorithm r' = algorithm r
    /\ signature r' = signature r ++ more
    /\ totalLength r' = (totalLength r + List.length extra)%nat.
Proof.
  intros Hr.
  destruct (inspectVarsig_inversion varsig r Hr)
    as (header & hash & len & info & E1 & Hreg & E2 & E3 & E4 & ->).
  pose proof (decodeVarintAt_registered_length _ _ _ E1 Hreg).
  destruct (decodeVarintAt_bounds _ _ _ E1) as (? & ? & ? & _).
  destruct (decodeVarintAt_bounds _ _ _ E2) as (? & ? & ? & _).
  destruct (decodeVarintAt_bounds _ _ _ E3) as (? & ? & ? & _).
  destruct (decodeVarintAt_bounds _ _ _ E4) as (? & ? & ? & _).
  cbn [List.length VARSIG_PREFIX] in *.
  eexists.
  exists (firstn (N.to_nat (Decoded.value len)
                  - (List.length varsig - Decoded.nextOffset info)) extra).
  split.
  - unfold inspectVarsig. cbn [List.length VARSIG_PREFIX].
    rewrite (decodeVarintAt_app _ extra _ _ E1). step. rewrite Hreg.
    rewrite (decodeVarintAt_app _ extra _ _ E2). step.
    rewrite (decodeVarintAt_app _ extra _ _ E3). step.
    rewrite (decodeVarintAt_app _ extra _ _ E4). step.
    reflexivity.
  - cbn [prefix signatureHeader hashAlgorithm signatureByteLength
         encodingInfo algorithm signature totalLength].
    unfold slice. cbn [List.length VARSIG_PREFIX].
    rewrite !firstn_skipn_app by lia.
    replace (1 - 0 - (List.length varsig - 0))%nat with 0%nat by lia.
    replace (Decoded.nextOffset hash + Decoded.length len
             - Decoded.nextOffset hash
             - (List.length varsig - Decoded.nextOffset hash))%nat
      with 0%nat by lia.
    rewrite !firstn_O, !app_nil_r, length_app.
    replace (Decoded.nextOffset info + N.to_nat (Decoded.value len)
             - Decoded.nextOffset info)%nat
      with (N.to_nat (Decoded.value len)) by lia.
    repeat split.
Qed.

Lemma appending_bytes_keeps_the_fields_witness :
  exists r' more,
    inspectVarsig ([x34; xed; x01; x12; x02; x5f; x2a] ++ [x2b; x2c]) = Ok r'
    /\ prefix r' = "34"%string
    /\ signatureHeader r' = "ed"%string
    /\ hashAlgorithm r' = "12"%string
    /\ signatureByteLength r' = "02"%string
    /\ encodingInfo r' = "5f"%string
    /\ algorithm r' = "ed25519"%string
    /\ signature r' = [x2a] ++ more
    /\ totalLength r' = (7 + 2)%nat.
Proof.
  exact (appending_bytes_keeps_the_fields
           [x34; xed; x01; x12; x02; x5f; x2a] [x2b; x2c]
           {| prefix := "34"; signatureHeader := "ed"; hashAlgorithm := "12";
              signatureByteLength := "02"; encodingInfo := "5f";
              signature := [x2a]; algorithm := "ed25519";
              totalLength := 7 |} eq_refl).
Defined.

(** ** utils.js: [parseVarsig] *)

(** X16.  [parseVarsig] never fails and splits the buffer without loss: a
    buffer of three bytes or more is its three leading bytes followed by
    [sigBytes]; in a shorter buffer [encodingInfo] is undefined and
    [sigBytes] is empty.  In every case [sigBytes] has three bytes fewer than
    the buffer, or none. *)
Theorem parseVarsig_splits (varsig : Uint8Array) :
  let parsed := utils.parseVarsig varsig in
  List.length (utils.sigBytes parsed) = (List.length varsig - 3)%nat
  /\ ((3 <= List.length varsig)%nat ->
      exists h a e,
        utils.varsigHeader parsed = Some h
        /\ utils.hashAlgorithm parsed = Some a
        /\ utils.encodingInfo parsed = Some e
        /\ varsig = [h; a; e] ++ utils.sigBytes parsed)
  /\ ((List.length varsig < 3)%nat ->
      utils.encodingInfo parsed = None /\ utils.sigBytes parsed = []).
Proof.
  cbv zeta. unfold utils.parseVarsig, slice_from.
  cbn [utils.sigBytes utils.varsigHeader utils.hashAlgorithm
       utils.encodingInfo].
  split; [apply length_skipn|].
  destruct varsig as [|h [|a [|e rest]]]; cbn [List.length]; split;
    try (intros; lia); try (intros _; split; reflexivity).
  intros _. exists h, a, e. repeat split.
Qed.

Lemma encodeVarint_nonempty (code : N) :
  exists first rest, encodeVarint code = first :: rest.
Proof.
  destruct (encodeVarint code) as [|first rest] eqn:E; [|eauto].
  exfalso. pose proof (encode_length_bounds code) as H. cbv zeta in H.
  rewrite <- encodeVarint_encode, E in H. cbn in H. lia.
Qed.

(** X17.  [parseVarsig] does not read the layout [create] writes.  On what
    [create] returns it reports the prefix byte 0x34 as the header and the
    first byte of the signature header as the hash algorithm, and its
    [sigBytes] is the signature preceded by two or more bytes of the varint
    fields, so never the signature itself. *)
Theorem parseVarsig_misreads_create (payload : Uint8Array)
    (cryptoImplementation : API.CryptoImplementation) (privateKey : Key)
    (signatureBytes varsig : Uint8Array) :
  API.sign cryptoImplementation payload privateKey = Ok signatureBytes ->
  create payload cryptoImplementation privateKey = Ok varsig ->
  let parsed := utils.parseVarsig varsig in
  utils.varsigHeader parsed = Some x34
  /\ utils.hashAlgorithm parsed
     = nth_error (encodeVarint (API.getSignatureHeader cryptoImplementation)) 0
  /\ (exists fields,
         utils.sigBytes parsed = fields ++ signatureBytes
         /\ (2 <= List.length fields)%nat)
  /\ utils.sigBytes parsed <> signatureBytes.
Proof.
  intros Hsign Hcreate. cbv zeta.
  rewrite create_envelope, Hsign in Hcreate. cbn [bind] in Hcreate.
  injection Hcreate as <-.
  unfold envelope, VARSIG_PREFIX. rewrite <- !encodeVarint_encode.
  destruct (encodeVarint_nonempty (API.getSignatureHeader cryptoImplementation))
    as (h1 & hs & ->).
  destruct (encodeVarint_nonempty (API.getHashAlgorithm cryptoImplementation))
    as (a1 & as_ & ->).
  destruct (encodeVarint_nonempty (N.of_nat (List.length signatureBytes)))
    as (l1 & ls & ->).
  destruct (encodeVarint_nonempty ENCODING_INFO) as (i1 & is_ & ->).
  unfold utils.parseVarsig, slice_from.
  cbn [utils.sigBytes utils.varsigHeader utils.hashAlgorithm app nth_error].
  assert (Hfields : exists fields,
             skipn 3 (x34 :: h1 :: hs ++ a1 :: as_ ++ l1 :: ls ++ i1 :: is_
                        ++ signatureBytes)
             = fields ++ signatureBytes
             /\ (2 <= List.length fields)%nat).
  { set (F := hs ++ a1 :: as_ ++ l1 :: ls ++ i1 :: is_).
    assert (HF : hs ++ a1 :: as_ ++ l1 :: ls ++ i1 :: is_ ++ signatureBytes
                 = F ++ signatureBytes).
    { unfold F. rewrite <- app_assoc. cbn [app]. do 2 f_equal.
      rewrite <- app_assoc. cbn [app]. do 2 f_equal.
      rewrite <- app_assoc. reflexivity. }
    assert (HlenF : (3 <= List.length F)%nat).
    { unfold F. rewrite length_app. cbn [List.length]. rewrite length_app.
      cbn [List.length]. rewrite length_app. cbn [List.length]. lia. }
    rewrite HF.
    change (skipn 3 (x34 :: h1 :: F ++ signatureBytes))
      with (skipn 1 (F ++ signatureBytes)).
    exists (skipn 1 F). split.
    - rewrite skipn_app.
      replace (1 - List.length F)%nat with 0%nat by lia. reflexivity.
    - rewrite length_skipn. lia. }
  repeat split; [exact Hfields|].
  destruct Hfields as (fields & -> & Hlen).
  intros Heq. apply (f_equal (@List.length byte)) in Heq.
  rewrite length_app in Heq. lia.
Qed.

Lemma parseVarsig_misreads_create_witness :
  let parsed :=
    utils.parseVarsig ([x34; xed; x01; x12; x40; x5f] ++ repeat x00 64) in
  utils.varsigHeader parsed = Some x34
  /\ utils.hashAlgorithm parsed = Some xed
  /\ (exists fields,
         utils.sigBytes parsed = fields ++ repeat x00 64
         /\ (2 <= List.length fields)%nat)
  /\ utils.sigBytes parsed <> repeat x00 64.
Proof.
  exact (parseVarsig_misreads_create [x68; x69]
           (ed25519Implementation rejecting) (RawKey [x01])
           (repeat x00 64)
           ([x34; xed; x01; x12; x40; x5f] ++ repeat x00 64)
           eq_refl eq_refl).
Defined.

(** ** Encodings that are not minimal *)

Lemma read_padded (num : N) :
  forall (rest : list byte) (shift res : N) (counter : nat),
    varint.read (padded (varint.encode num) ++ rest) shift res counter
    = Ok (res + N.shiftl num shift,
          (counter + S (List.length (varint.encode num)))%nat).
Proof.
  induction num as [num IH] using (well_founded_induction N.lt_wf_0).
  intros rest shift res counter.
  rewrite encode_unfold.
  destruct (num <? varint.MSB) eqn:E.
  - apply N.ltb_lt in E. unfold varint.MSB in E.
    cbn [padded app varint.read List.length].
    rewrite (to_N_byte_of_N_small num) by lia.
    rewrite lor_MSB by exact E.
    rewrite (to_N_byte_of_N_small (num + 128)) by lia.
    replace (varint.MSB <=? num + 128) with true
      by (symmetry; apply N.leb_le; unfold varint.MSB; lia).
    rewrite land_REST.
    replace ((num + 128) mod 128) with num.
    2:{ replace (num + 128) with (num + 1 * 128) by lia.
        rewrite N.Div0.mod_add. symmetry. now apply N.mod_small. }
    change (varint.MSB <=? Byte.to_N x00) with false. cbv iota.
    change (N.land (Byte.to_N x00) varint.REST) with 0.
    rewrite N.shiftl_0_l. do 2 f_equal; lia.
  - apply N.ltb_ge in E. unfold varint.MSB in E.
    assert (Hq : N.shiftr num 7 < num)
      by (rewrite N.shiftr_div_pow2; apply N.div_lt; lia).
    assert (Hn : num = 128 * N.shiftr num 7 + num mod 128)
      by (rewrite N.shiftr_div_pow2; apply N.div_mod; lia).
    assert (Hr : num mod 128 < 128) by (apply N.mod_upper_bound; lia).
    assert (Hpad : forall b,
               padded (b :: varint.encode (N.shiftr num 7))
               = b :: padded (varint.encode (N.shiftr num 7))).
    { intros b. rewrite (encode_unfold (N.shiftr num 7)).
      now destruct (N.shiftr num 7 <? varint.MSB). }
    rewrite Hpad. cbn [app varint.read List.length].
    rewrite continuation_byte, land_REST.
    revert Hn Hr. generalize (num mod 128) as r. intros r Hn Hr.
    replace (varint.MSB <=? r + 128) with true
      by (symmetry; apply N.leb_le; unfold varint.MSB; lia).
    replace ((r + 128) mod 128) with r.
    2:{ replace (r + 128) with (r + 1 * 128) by lia.
        rewrite N.Div0.mod_add. symmetry. now apply N.mod_small. }
    rewrite (IH _ Hq).
    f_equal. f_equal; [|lia].
    rewrite !N.shiftl_mul_pow2, N.pow_add_r.
    change (2 ^ 7) with 128.
    rewrite Hn at 2. lia.
Qed.

(** X18.  [decodeVarintAt] accepts encodings that are not minimal: the
    encoding of a number below 2^53 with its last byte marked as continuing
    and a zero byte after it decodes to the same number, with one byte more
    consumed.  So such a number has several encodings that decode to it. *)
Theorem decodeVarintAt_accepts_padding (before after : list byte) (code : N) :
  safe_integer code ->
  decodeVarintAt (before ++ padded (encodeVarint code) ++ after)
    (List.length before)
  = Ok {| Decoded.value := code;
          Decoded.length := S (List.length (encodeVarint code));
          Decoded.nextOffset :=
            List.length before + S (List.length (encodeVarint code)) |}.
Proof.
  intros _. unfold decodeVarintAt, subarray, varint.decode.
  rewrite skipn_app, skipn_all, Nat.sub_diag. cbn [skipn app].
  rewrite encodeVarint_encode, read_padded. cbn [bind fst snd].
  now rewrite N.shiftl_0_r.
Qed.

Lemma decodeVarintAt_accepts_padding_witness :
  padded (encodeVarint 0xed) = [xed; x81; x00]
  /\ decodeVarintAt ([x34] ++ [xed; x81; x00] ++ [x12]) 1
     = Ok {| Decoded.value := 0xed;
             Decoded.length := 3;
             Decoded.nextOffset := 4 |}.
Proof.
  split; [reflexivity|].
  exact (decodeVarintAt_accepts_padding [x34] [x12] 0xed eq_refl).
Defined.

(** ** [verify] on a varsig cut inside its signature *)

(** X19.  For each built-in entry [(name, algo)]: when what [create]
    returned loses bytes at its end but keeps its varint fields and the
    first [j] bytes of the signature, [verify] raises nothing of its own and
    hands those [j] bytes to [algo]'s verify capability. *)
Theorem verify_of_a_cut_varsig (P : Primitives) (name : string)
    (algo : API.CryptoImplementation) (payload : Uint8Array) (privateKey : Key)
    (signatureBytes varsig : Uint8Array) (j : nat)
    (payload' : Uint8Array) (publicKey : Key) :
  In (name, algo) (cryptoAlgorithms P) ->
  API.sign algo payload privateKey = Ok signatureBytes ->
  create payload algo privateKey = Ok varsig ->
  verify P payload'
    (firstn (List.length varsig - List.length signatureBytes + j) varsig)
    publicKey
  = API.verify algo payload' (firstn j signatureBytes) publicKey.
Proof.
  intros Hin Hsign Hcreate.
  destruct (cryptoAlgorithms_cases P name algo Hin) as [Hname Hprop].
  rewrite create_envelope, Hsign in Hcreate. cbn [bind] in Hcreate.
  injection Hcreate as <-.
  set (h := API.getSignatureHeader algo) in *.
  set (a := API.getHashAlgorithm algo).
  set (n := N.of_nat (List.length signatureBytes)).
  set (F := [x34] ++ varint.encode h ++ varint.encode a
              ++ varint.encode n ++ varint.encode ENCODING_INFO).
  assert (HF : envelope h a signatureBytes = F ++ signatureBytes).
  { unfold envelope, F, VARSIG_PREFIX. fold n. now rewrite <- !app_assoc. }
  rewrite HF, length_app.
  replace (List.length F + List.length signatureBytes
           - List.length signatureBytes)%nat with (List.length F) by lia.
  rewrite firstn_app_2.
  unfold F. rewrite <- !app_assoc.
  unfold verify. rewrite inspectVarsig_fields.
  rewrite (signatureHeaderMatch_truthy _ _ Hname), Hname.
  cbn [bind signature algorithm]. rewrite Hprop.
  unfold n. rewrite Nat2N.id, firstn_firstn.
  replace (Nat.min (List.length signatureBytes) j)
    with (Nat.min j (List.length signatureBytes)) by lia.
  rewrite <- firstn_firstn, firstn_all. reflexivity.
Qed.

Lemma verify_of_a_cut_varsig_witness :
  verify rejecting [x68; x69]
    (firstn (70 - 64 + 10)
       ([x34; xed; x01; x12; x40; x5f] ++ repeat x00 64))
    (RawKey [x02])
  = API.verify (ed25519Implementation rejecting) [x68; x69]
      (firstn 10 (repeat x00 64)) (RawKey [x02]).
Proof.
  exact (verify_of_a_cut_varsig rejecting "ed25519"
           (ed25519Implementation rejecting) [x68; x69] (RawKey [x01])
           (repeat x00 64)
           ([x34; xed; x01; x12; x40; x5f] ++ repeat x00 64) 10
           [x68; x69] (RawKey [x02])
           (or_introl eq_refl) eq_refl eq_refl).
Defined.
